(** * Publications query: a shallow embedding of [publications_query.py]

    The script asks the ADS for publications by keyword and by author, merges
    the two result mappings, flattens and sorts them, enriches every record
    and renders the records into a spreadsheet which is mailed.

    Python objects are mutable and shared: a publication record reached
    through [by_authors] is the very same dictionary that later sits in
    [all] and in [publications].  Records therefore live in a store indexed
    by object identity, and the code is written in a state-and-exception
    monad over that store. *)

From Stdlib Require Import ZArith Ascii String.
From stdpp Require Import gmap strings list fin_maps sorting functions.

#[local] Set Warnings "-clear-no-such-hyp".

Local Open Scope Z_scope.
Local Open Scope stdpp_scope.

(** ** Python strings

    A [str] is modelled by [string]; a character is a code point below 256.
    Comparison of strings in Python is lexicographic on code points, which is
    what [String.compare] computes. *)

Module PyStr.

(** [sub in s]: substring test. *)
Fixpoint contains (sub s : string) : bool :=
  String.prefix sub s ||
  match s with
  | EmptyString => false
  | String _ s' => contains sub s'
  end.

(** The propositional reading of the substring test. *)
Definition has_substring (sub s : string) : Prop :=
  ∃ pre post, s = pre +:+ sub +:+ post.

(** [str.isspace] on the code points below 256. *)
Definition is_space (c : ascii) : bool :=
  let n := N_of_ascii c in
  ((9 <=? n) && (n <=? 13) || (28 <=? n) && (n <=? 32) ||
   (n =? 133) || (n =? 160))%N.

Fixpoint lstrip (s : string) : string :=
  match s with
  | EmptyString => EmptyString
  | String c s' => if is_space c then lstrip s' else s
  end.

Fixpoint rstrip (s : string) : string :=
  match s with
  | EmptyString => EmptyString
  | String c s' =>
      match rstrip s' with
      | EmptyString => if is_space c then EmptyString else String c EmptyString
      | r => String c r
      end
  end.

(** [s.strip()] *)
Definition strip (s : string) : string := rstrip (lstrip s).

Definition all_space (s : string) : Prop :=
  Forall (λ c, is_space c = true) (list_ascii_of_string s).

Definition first_char (s : string) : option ascii :=
  match s with EmptyString => None | String c _ => Some c end.

Fixpoint last_char (s : string) : option ascii :=
  match s with
  | EmptyString => None
  | String c EmptyString => Some c
  | String _ s' => last_char s'
  end.

(** The characters of a string, each as a string of length one: what
    iterating over a [str] yields. *)
Fixpoint chars (s : string) : list string :=
  match s with
  | EmptyString => []
  | String c s' => String c EmptyString :: chars s'
  end.

(** [sep.join(parts)] for a list of [str]. *)
Definition join (sep : string) (parts : list string) : string :=
  String.concat sep parts.

End PyStr.

(** ** Values held by the fields of a publication record

    The ADS answers in JSON: a field holds [None], a boolean, an integer, a
    string or a list of strings. *)

Inductive value :=
  | VNone
  | VBool (b : bool)
  | VInt (z : Z)
  | VStr (s : string)
  | VList (l : list string).

Global Instance value_eq_dec : EqDecision value.
Proof. solve_decision. Defined.

(** The exceptions the code can raise.  [IOError] is Python 3's [OSError]
    with its subclasses ([FileNotFoundError], [PermissionError], ...). *)
Inductive exn :=
  | KeyError
  | TypeError
  | IOError
  | UnicodeDecodeError
  | OverflowError.

Inductive outcome (A : Type) :=
  | Ok (a : A)
  | Raise (e : exn).
Arguments Ok {A} a.
Arguments Raise {A} e.

Global Instance outcome_ret : MRet outcome := λ A a, Ok a.
Global Instance outcome_bind : MBind outcome := λ A B f m,
  match m with
  | Ok a => f a
  | Raise e => Raise e
  end.

(** Truth value of an object, as tested by [if p[c]]. *)
Definition truthy (v : value) : bool :=
  match v with
  | VNone => false
  | VBool b => b
  | VInt z => negb (z =? 0)
  | VStr s => negb (bool_decide (s = EmptyString))
  | VList l => negb (bool_decide (l = []))
  end.

(** [x in v] for a string [x]. *)
Definition py_in (x : string) (v : value) : outcome bool :=
  match v with
  | VList l => Ok (bool_decide (x ∈ l))
  | VStr s => Ok (PyStr.contains x s)
  | _ => Raise TypeError
  end.

(** [sep.join(v)] *)
Definition py_join (sep : string) (v : value) : outcome value :=
  match v with
  | VList l => Ok (VStr (PyStr.join sep l))
  | VStr s => Ok (VStr (PyStr.join sep (PyStr.chars s)))
  | _ => Raise TypeError
  end.

(** [a < b] on lists of strings: the first differing position decides,
    a proper prefix is smaller. *)
Fixpoint list_ltb (a b : list string) : bool :=
  match a, b with
  | _, [] => false
  | [], _ :: _ => true
  | x :: a', y :: b' =>
      match String.compare x y with
      | Lt => true
      | Eq => list_ltb a' b'
      | Gt => false
      end
  end.

Definition as_number (v : value) : option Z :=
  match v with
  | VInt z => Some z
  | VBool b => Some (if b then 1 else 0)
  | _ => None
  end.

(** [v < w], the only comparison [list.sort] performs.  Strings compare
    with strings, lists with lists, numbers (booleans included) with
    numbers; anything else is a [TypeError]. *)
Definition value_lt (v w : value) : outcome bool :=
  match v, w with
  | VStr a, VStr b => Ok (String.ltb a b)
  | VList a, VList b => Ok (list_ltb a b)
  | _, _ =>
      match as_number v, as_number w with
      | Some a, Some b => Ok (a <? b)
      | _, _ => Raise TypeError
      end
  end.

(** ** The store and the monad *)

Definition loc := nat.

(** The state of the world the script runs in: the publication records by
    object identity, and the path named by [config.PREVIOUS_BIBCODES_FILE]
    (a constant that [config.py] does not define; the path is a parameter
    of the model):
    - [previous_bibcodes_file]: the text of the file when a regular file
      exists at the path;
    - [file_writable]: whether [open(path, 'w')] succeeds there;
    - [file_created]: whether a successful [open(path, 'w')] leaves a
      regular file at the path (it does not when the path names a device);
    - [file_read_error]: what opening the file for reading, or reading it,
      raises, if anything ([IOError] without permission,
      [UnicodeDecodeError] for bytes that do not decode). *)
Record world := World {
  objects : loc → gmap string value;
  previous_bibcodes_file : option string;
  file_writable : bool;
  file_created : bool;
  file_read_error : option exn
}.

Definition M (A : Type) : Type := world → world * outcome A.

Global Instance M_ret : MRet M := λ A a w, (w, Ok a).
Global Instance M_bind : MBind M := λ A B f m w,
  match m w with
  | (w', Ok a) => f a w'
  | (w', Raise e) => (w', Raise e)
  end.

Definition raise {A} (e : exn) : M A := λ w, (w, Raise e).

Definition lift {A} (r : outcome A) : M A := λ w, (w, r).

(** [for x in xs: body x] *)
Fixpoint for_ {A} (xs : list A) (body : A → M unit) : M unit :=
  match xs with
  | [] => mret tt
  | x :: xs' => body x ≫= λ _, for_ xs' body
  end.

(** [[f x for x in xs]] *)
Fixpoint comprehension {A B} (f : A → M B) (xs : list A) : M (list B) :=
  match xs with
  | [] => mret []
  | x :: xs' => y ← f x; ys ← comprehension f xs'; mret (y :: ys)
  end.

(** [p[k]] *)
Definition getitem (p : loc) (k : string) : M value := λ w,
  match objects w p !! k with
  | Some v => (w, Ok v)
  | None => (w, Raise KeyError)
  end.

(** [p[k] = v] *)
Definition setitem (p : loc) (k : string) (v : value) : M unit := λ w,
  (World (<[p := <[k := v]> (objects w p)]> (objects w))
         (previous_bibcodes_file w) (file_writable w)
         (file_created w) (file_read_error w), Ok tt).

(** [k in p] *)
Definition haskey (p : loc) (k : string) : M bool := λ w,
  (w, Ok (bool_decide (is_Some (objects w p !! k)))).

(** [p.get(k, default)] *)
Definition getdefault (p : loc) (k : string) (d : value) : M value := λ w,
  (w, Ok (default d (objects w p !! k))).

(** ** Result mappings

    [by_keywords], [by_authors] and [all] map a bibcode to a record.  A
    Python [dict] keeps its keys in insertion order, so a mapping is an
    association list; its keys are distinct ([dict_wf]). *)

Definition dict := list (string * loc).

Definition keys (d : dict) : list string := d.*1.

Definition dict_wf (d : dict) : Prop := NoDup (keys d).

Fixpoint dict_get (d : dict) (k : string) : option loc :=
  match d with
  | [] => None
  | (k', p) :: d' => if decide (k' = k) then Some p else dict_get d' k
  end.

(** [d[k] = p]: an existing key keeps its position, a new one goes last. *)
Fixpoint dict_set (k : string) (p : loc) (d : dict) : dict :=
  match d with
  | [] => [(k, p)]
  | (k', p') :: d' =>
      if decide (k' = k) then (k, p) :: d' else (k', p') :: dict_set k p d'
  end.

(** [d.update(src)] *)
Definition dict_update (d src : dict) : dict :=
  fold_left (λ acc kp, dict_set kp.1 kp.2 acc) src d.

(** [{**a, **b}] *)
Definition dict_merge (a b : dict) : dict :=
  dict_update (dict_update [] a) b.

(** [d[k]] *)
Definition dict_getitem (d : dict) (k : string) : M loc :=
  match dict_get d k with
  | Some p => mret p
  | None => raise KeyError
  end.

(** ** [list.sort(key=...)]

    The keys are computed first; the sort is stable and compares keys with
    [<] only.  A stable sort has one possible result, and it completes
    exactly when the keys it holds are mutually comparable (a list of at
    most one element is never compared), which this insertion sort
    reproduces. *)

Fixpoint insert_by_key (x : value * loc) (l : list (value * loc))
  : outcome (list (value * loc)) :=
  match l with
  | [] => Ok [x]
  | y :: l' =>
      smaller ← value_lt y.1 x.1;
      if smaller : bool then r ← insert_by_key x l'; mret (y :: r)
      else mret (x :: y :: l')
  end.

Fixpoint sort_by_key (l : list (value * loc)) : outcome (list (value * loc)) :=
  match l with
  | [] => Ok []
  | x :: l' => s ← sort_by_key l'; insert_by_key x s
  end.

(** [publications.sort(key=lambda p: p['bibcode'])] *)
Definition sort_publications (publications : list loc) : M (list loc) :=
  ks ← comprehension (λ p, getitem p "bibcode") publications;
  sorted ← lift (sort_by_key (zip ks publications));
  mret (sorted.*2).

(** ** Reading the file of previously found bibcodes *)

(** [os.path.isfile(config.PREVIOUS_BIBCODES_FILE)] *)
Definition isfile : M bool := λ w,
  (w, Ok (bool_decide (is_Some (previous_bibcodes_file w)))).

(** [with open(config.PREVIOUS_BIBCODES_FILE, 'w') as f: f.close()]:
    called only when there is no regular file at the path.  It raises when
    the path cannot be opened for writing; otherwise it leaves an empty
    regular file, or, where the path names a device, nothing new. *)
Definition open_for_writing : M unit := λ w,
  if file_writable w
  then (if file_created w
        then World (objects w) (Some EmptyString) (file_writable w)
               (file_created w) (file_read_error w)
        else w, Ok tt)
  else (w, Raise IOError).

(** What a file opened in text mode hands over: [open] is called without
    [newline], so a carriage return followed by a line feed, and a carriage
    return alone, both arrive as one line feed. *)
Fixpoint universal_newlines (text : string) : string :=
  match text with
  | EmptyString => EmptyString
  | String c rest =>
      if decide (c = "013"%char) then
        match rest with
        | String d rest' =>
            if decide (d = "010"%char)
            then String "010" (universal_newlines rest')
            else String "010" (universal_newlines rest)
        | EmptyString => String "010" EmptyString
        end
      else String c (universal_newlines rest)
  end.

(** The lines of a text that has been through [universal_newlines]: a
    line ends with its line feed, which it keeps. *)
Fixpoint split_lines (text : string) : list string :=
  match text with
  | EmptyString => []
  | String c rest =>
      if decide (c = "010"%char) then String c EmptyString :: split_lines rest
      else match split_lines rest with
           | [] => [String c EmptyString]
           | line :: lines => String c line :: lines
           end
  end.

(** [f.readlines()] (and [for line in f]) on the text of a file: every
    line keeps its newline. *)
Definition readlines (text : string) : list string :=
  split_lines (universal_newlines text).

(** [with open(config.PREVIOUS_BIBCODES_FILE) as f: f.readlines()] *)
Definition read_previous_bibcodes_file : M (list string) := λ w,
  match previous_bibcodes_file w with
  | Some text =>
      match file_read_error w with
      | Some e => (w, Raise e)
      | None => (w, Ok (readlines text))
      end
  | None => (w, Raise IOError)
  end.

Definition _ensure_previously_recorded_file_exists : M unit :=
  present ← isfile;
  _ ← (if negb present then open_for_writing else mret tt);
  present ← isfile;
  if negb present then raise IOError else mret tt.

Definition previously_found_bibcodes : M (list string) :=
  _ ← _ensure_previously_recorded_file_exists;
  lines ← read_previous_bibcodes_file;
  mret (PyStr.strip <$> lines).

(** ** The spreadsheet *)

Definition spreadsheet_columns : list (string * string) :=
  [ ("record_type", "Record Type");
    ("publication_number", "Doc/Publication Number");
    ("author", "Responsibility");
    ("title", "Title");
    ("pub", "Journal");
    ("volume", "Volume");
    ("issue", "Issue");
    ("page", "Page");
    ("refereed", "Refereed");
    ("bibcode", "Bibcode");
    ("doi", "DOI");
    ("ads_url", "ADS URL");
    ("abstract", "Abstract");
    ("telescopes", "Telescopes");
    ("keywords", "Keywords") ].

(** The first integer that [float] refuses with [OverflowError]. *)
Definition float_overflow : Z := 2 ^ 1024 - 2 ^ 970.

(** [worksheet.write(row, col, v)]: [None], booleans and strings are
    written; a number is tested with [isnan], which converts it to a
    float; any other object is refused with [TypeError]. *)
Definition worksheet_write (v : value) : outcome unit :=
  match v with
  | VNone | VBool _ | VStr _ => Ok tt
  | VInt z =>
      if decide (- float_overflow < z < float_overflow) then Ok tt
      else Raise OverflowError
  | VList _ => Raise TypeError
  end.

(** The cells handed to [worksheet.write], row by row; the first cell
    that is refused ends the function. *)
Definition publications_spreadsheet (publications : list loc)
    (columns : list string) : M (list (list value)) :=
  comprehension (λ p,
    comprehension (λ c,
      v ← getdefault p c (VStr EmptyString);
      _ ← lift (worksheet_write v);
      mret v) columns)
    publications.

(** ** [run_pub] *)

Section run_pub.

(** [str(v)] for a value that is not a string, as ['{0}'.format] applies
    it; its text plays no role below. *)
Variable str_of_other : value → string.

Definition format_value (v : value) : string :=
  match v with
  | VStr s => s
  | _ => str_of_other v
  end.

(** The body of the loop:
    [all[b]['keywords'] = by_keywords[b]['keywords']] *)
Definition copy_keywords (by_keywords all : dict) (b : string) : M unit :=
  src ← dict_getitem by_keywords b;
  kw ← getitem src "keywords";
  dst ← dict_getitem all b;
  setitem dst "keywords" kw.

(** [all = {**by_keywords, **by_authors}] followed by
    [for b in by_keywords: ...] *)
Definition merge_results (by_keywords by_authors : dict) : M dict :=
  let all := dict_merge by_keywords by_authors in
  _ ← for_ (keys by_keywords) (copy_keywords by_keywords all);
  mret all.

(** [publications = [all[b] for b in all.keys()]] *)
Definition flatten (all : dict) : M (list loc) :=
  comprehension (dict_getitem all) (keys all).

(** ['https://ui.adsabs.harvard.edu/#abs/{0}/abstract'.format(bibcode)] *)
Definition ads_url_of (bibcode : value) : value :=
  VStr ("https://ui.adsabs.harvard.edu/#abs/" +:+ format_value bibcode
        +:+ "/abstract").

Definition add_ads_url (publications : list loc) : M unit :=
  for_ publications (λ p,
    b ← getitem p "bibcode";
    setitem p "ads_url" (ads_url_of b)).

Definition add_refereed (publications : list loc) : M unit :=
  for_ publications (λ p,
    prop ← getitem p "property";
    r ← lift (py_in "REFEREED" prop);
    setitem p "refereed" (VBool r)).

Definition list_value_columns : list string :=
  ["author"; "title"; "doi"; "keywords"; "page"].

(** The body of the inner loop:
    [if c in p and p[c]: p[c] = ', '.join(p[c])] *)
Definition join_column (p : loc) (c : string) : M unit :=
  present ← haskey p c;
  if present : bool then
    v ← getitem p c;
    if truthy v then
      joined ← lift (py_join ", " v);
      setitem p c joined
    else mret tt
  else mret tt.

Definition join_list_values (publications : list loc) : M unit :=
  for_ publications (λ p, for_ list_value_columns (join_column p)).

(** The fields the three loops assign. *)
Definition enriched_fields : list string :=
  ["ads_url"; "refereed"; "author"; "title"; "doi"; "keywords"; "page"].

(** The three loops between flattening and rendering. *)
Definition enrich (publications : list loc) : M unit :=
  _ ← add_ads_url publications;
  _ ← add_refereed publications;
  join_list_values publications.

(** [run_pub]: the results of the two ADS queries are its inputs; it
    yields the publication list and the cells of [all.xlsx]. *)
Definition run_pub (by_keywords by_authors : dict)
  : M (list loc * list (list value)) :=
  all ← merge_results by_keywords by_authors;
  publications ← flatten all;
  publications ← sort_publications publications;
  _ ← enrich publications;
  sheet ← publications_spreadsheet publications (spreadsheet_columns.*1);
  mret (publications, sheet).

End run_pub.

(** ** [ignore_tmp_bibcodes] *)

Definition ignore_tmp_bibcodes (bibcodes : list string) : list string :=
  List.filter (λ bibcode, negb (PyStr.contains "tmp" bibcode)) bibcodes.

(** ** More of [str]: splitting, replacing, substituting *)

Module PyStrOps.

(** [chr(n)].  The strings of this model hold code points below 256;
    from 256 on the result is [None]: no string of the model (Python gives
    the one character with code point [n], and raises [ValueError] from
    0x110000 on). *)
Definition chr (n : nat) : option string :=
  if decide (n < 256)%nat then Some (String (ascii_of_nat n) EmptyString)
  else None.

(** Put a character in front of the first part. *)
Definition cons_first (c : ascii) (parts : list string) : list string :=
  match parts with
  | part :: parts' => String c part :: parts'
  | [] => [String c EmptyString]
  end.

(** [s.split(sep)] for a separator of one character. *)
Fixpoint split_char (sep : ascii) (s : string) : list string :=
  match s with
  | EmptyString => [EmptyString]
  | String c s' =>
      if decide (c = sep) then EmptyString :: split_char sep s'
      else cons_first c (split_char sep s')
  end.

(** [s.split(sep)] for the separator of the two characters [a], [b]:
    occurrences are taken from the left and do not overlap. *)
Fixpoint split_pair (a b : ascii) (s : string) : list string :=
  match s with
  | EmptyString => [EmptyString]
  | String c s' =>
      match s' with
      | String d s'' =>
          if decide (c = a ∧ d = b) then EmptyString :: split_pair a b s''
          else cons_first c (split_pair a b s')
      | EmptyString => [String c EmptyString]
      end
  end.

(** [s.replace(old, new)] for [old] of one character. *)
Fixpoint replace_char (old : ascii) (new : string) (s : string) : string :=
  match s with
  | EmptyString => EmptyString
  | String c s' =>
      if decide (c = old) then new +:+ replace_char old new s'
      else String c (replace_char old new s')
  end.

(** [re.sub('<[^>]+>', '', s)].  A match starts at a '<', takes at least
    one character other than '>' and ends at the first '>' after them;
    matches are taken from the left.  [pending] holds what has been read
    since a '<' that may still open a match. *)
Fixpoint sub_tags (pending : option string) (s : string) : string :=
  match s with
  | EmptyString =>
      match pending with
      | None => EmptyString
      | Some inside => String "<" inside
      end
  | String c s' =>
      match pending with
      | None =>
          if decide (c = "<"%char) then sub_tags (Some EmptyString) s'
          else String c (sub_tags None s')
      | Some inside =>
          if decide (c = ">"%char) then
            if decide (inside = EmptyString)
            then String "<" (String ">" (sub_tags None s'))
            else sub_tags None s'
          else sub_tags (Some (inside +:+ String c EmptyString)) s'
      end
  end.

Definition strip_tags (s : string) : string := sub_tags None s.

End PyStrOps.

(** ** [config.py]

    The module reads four environment variables and the files [keys.txt]
    and [authors.txt] when it is imported. *)

(** What importing [config] can raise: [KeyError] for an environment
    variable that is not set; the exception of [open] or of reading for a
    file that cannot be read ([FileNotFoundError], [PermissionError],
    [UnicodeDecodeError]); [ValueError] when a line of [authors.txt] does
    not unpack into a key and a value. *)
Inductive config_error :=
  | MissingVariable (name : string)
  | CannotRead (path : string)
  | ValueError.

Record config := Config {
  SECRET_KEY : string;
  ADS_API_KEY : string;
  AUTHORS : list (string * string);
  KEYWORDS : list string;
  FROM_EMAIL_ADDRESS : string;
  LIBRARIAN_EMAIL_ADDRESSES : list string
}.

(** [[a.replace("\n", "") for a in f1.readlines()]] *)
Definition parse_keywords (text : string) : list string :=
  PyStrOps.replace_char "010" EmptyString <$> readlines text.

(** [AUTHORS[key]] *)
Fixpoint authors_get (authors : list (string * string)) (key : string)
  : option string :=
  match authors with
  | [] => None
  | (k, v) :: authors' =>
      if decide (k = key) then Some v else authors_get authors' key
  end.

(** [AUTHORS[key] = value] *)
Fixpoint authors_set (key value : string) (authors : list (string * string))
  : list (string * string) :=
  match authors with
  | [] => [(key, value)]
  | (k, v) :: authors' =>
      if decide (k = key) then (key, value) :: authors'
      else (k, v) :: authors_set key value authors'
  end.

(** [for b in f: key, value = b.split(': '); AUTHORS[key] = value];
    [None] stands for the [ValueError] of the unpacking. *)
Fixpoint parse_authors (lines : list string) (authors : list (string * string))
  : option (list (string * string)) :=
  match lines with
  | [] => Some authors
  | b :: lines' =>
      match PyStrOps.split_pair ":" " " b with
      | [key; value] => parse_authors lines' (authors_set key value authors)
      | _ => None
      end
  end.

(** The module body, top to bottom, given the environment and the text of
    the two files; [None] for a file that does not exist or cannot be
    read. *)
Definition load_config (environ : gmap string string)
    (keys_txt authors_txt : option string) : config_error + config :=
  match environ !! "SECRET-KEY" with
  | None => inl (MissingVariable "SECRET-KEY")
  | Some secret_key =>
  match environ !! "KEY" with
  | None => inl (MissingVariable "KEY")
  | Some ads_api_key =>
  match keys_txt with
  | None => inl (CannotRead "keys.txt")
  | Some keys_text =>
  match authors_txt with
  | None => inl (CannotRead "authors.txt")
  | Some authors_text =>
  match parse_authors (readlines authors_text) [] with
  | None => inl ValueError
  | Some authors =>
  match environ !! "FROM_EMAIL" with
  | None => inl (MissingVariable "FROM_EMAIL")
  | Some from_email =>
  match environ !! "LIBRARIANS_EMAIL" with
  | None => inl (MissingVariable "LIBRARIANS_EMAIL")
  | Some librarians =>
      inr (Config secret_key ads_api_key authors (parse_keywords keys_text)
             from_email (PyStrOps.split_char "&" librarians))
  end end end end end end end.

(** ** [send_mails] *)

(** [columns[key]] on the ordered dictionary of column titles. *)
Fixpoint column_title (columns : list (string * string)) (key : string)
  : outcome string :=
  match columns with
  | [] => Raise KeyError
  | (k, title) :: columns' =>
      if decide (k = key) then Ok title else column_title columns' key
  end.

(** [chr(ord('A') + i) + ' - ' + columns[key] + '<br>'].  The result is
    [None] where the line needs a character that the strings of this model
    do not have: there the model says nothing. *)
Definition explanation_line (columns : list (string * string))
    (i : nat) (key : string) : option (outcome string) :=
  match PyStrOps.chr (65 + i) with
  | None => None
  | Some letter =>
      Some (title ← column_title columns key;
            mret (letter +:+ " - " +:+ title +:+ "<br>"))
  end.

(** The list comprehension of [send_mails], from index [i]. *)
Fixpoint explanation_lines (columns : list (string * string)) (i : nat)
    (ks : list string) : option (outcome (list string)) :=
  match ks with
  | [] => Some (Ok [])
  | key :: ks' =>
      match explanation_line columns i key with
      | None => None
      | Some (Raise e) => Some (Raise e)
      | Some (Ok line) =>
          match explanation_lines columns (S i) ks' with
          | None => None
          | Some (Raise e) => Some (Raise e)
          | Some (Ok lines) => Some (Ok (line :: lines))
          end
      end
  end.

Definition newline : string := String "010" EmptyString.

Definition column_explanation (columns : list (string * string))
  : option (outcome string) :=
  match explanation_lines columns 0 (columns.*1) with
  | None => None
  | Some result => Some (lines ← result; mret (PyStr.join newline lines))
  end.

(** The HTML body: the template with [{column_explanation}] filled in. *)
Definition mail_html (explanation : string) : string :=
  "<p>Dear Librarian,</p>" +:+ newline +:+ newline
  +:+ "<p>Please find attached the results for the publications query.</p>"
  +:+ newline +:+ newline
  +:+ "<p>" +:+ explanation +:+ "</p>" +:+ newline +:+ newline
  +:+ "<p>Kind regards,</p>" +:+ newline +:+ newline
  +:+ "<p>Your Friendly Publications Query Script</p>".

(** What [send_mails] hands to [smtplib]: the headers, the two alternative
    bodies, the attachments by name, and the envelope.  The MIME encoding
    and the delivery are the libraries'. *)
Record mail := Mail {
  mail_subject : string;
  mail_to : string;
  mail_from : string;
  mail_text : string;
  mail_body_html : string;
  mail_attachments : list (string * list (list value));
  envelope_from : string;
  envelope_to : list string
}.

Definition send_mails (cfg : config)
    (spreadsheets : list (string * list (list value)))
    (columns : list (string * string)) : option (outcome mail) :=
  match column_explanation columns with
  | None => None
  | Some result =>
      Some (explanation ← result;
            let html := mail_html explanation in
            let text := PyStrOps.strip_tags html in
            mret (Mail "Publications Query Results"
                    (PyStr.join ", " (LIBRARIAN_EMAIL_ADDRESSES cfg))
                    (FROM_EMAIL_ADDRESS cfg)
                    text html spreadsheets
                    (FROM_EMAIL_ADDRESS cfg) (LIBRARIAN_EMAIL_ADDRESSES cfg)))
  end.

(** * Vocabulary of the properties *)

(** A computation [preserves] a relation between the world before and the
    world after, whether it returns or raises. *)
Definition preserves {A} (R : relation world) (m : M A) : Prop :=
  ∀ w w' r, m w = (w', r) → R w w'.

(** A computation that only reads. *)
Definition reads_only {A} (m : M A) : Prop :=
  ∀ w w' r, m w = (w', r) → w' = w.

(** Fields outside [ks] keep their value in every record. *)
Definition same_fields_except (ks : list string) : relation world :=
  λ w w', ∀ l k, k ∉ ks → objects w' l !! k = objects w l !! k.

(** Records outside [ps] are untouched. *)
Definition same_objects_outside (ps : list loc) : relation world :=
  λ w w', ∀ l, l ∉ ps → objects w' l = objects w l.

(** The file of previously found bibcodes is untouched. *)
Definition same_file : relation world :=
  λ w w', previous_bibcodes_file w' = previous_bibcodes_file w
          ∧ file_writable w' = file_writable w
          ∧ file_created w' = file_created w
          ∧ file_read_error w' = file_read_error w.

(** The record at [p] carries the URL of its own bibcode. *)
Definition has_ads_url (str_of_other : value → string) (w : world) (p : loc)
  : Prop :=
  ∃ b, objects w p !! "bibcode" = Some b
       ∧ objects w p !! "ads_url" = Some (ads_url_of str_of_other b).

(** The record at [p] carries the flag computed from its own property
    list. *)
Definition has_refereed (w : world) (p : loc) : Prop :=
  ∃ prop b, objects w p !! "property" = Some prop
            ∧ py_in "REFEREED" prop = Ok b
            ∧ objects w p !! "refereed" = Some (VBool b).

(** A field that is absent or holds a false value ([None], [False], [0],
    the empty string, the empty list). *)
Definition absent_or_empty (o : option value) : Prop :=
  match o with
  | None => True
  | Some v => truthy v = false
  end.

Definition keeps_empty_fields : relation world :=
  λ w w', ∀ p c, c ∈ list_value_columns →
                 absent_or_empty (objects w p !! c) →
                 objects w' p !! c = objects w p !! c.

(** A field that does not hold a non-empty list. *)
Definition no_list_left (o : option value) : Prop :=
  ∀ l, o = Some (VList l) → l = [].

Definition keeps_joined : relation world :=
  λ w w', ∀ p c, no_list_left (objects w p !! c) →
                 no_list_left (objects w' p !! c).

(** The records of [by_keywords] are as they were. *)
Definition keyword_records_unchanged (by_keywords : dict) : relation world :=
  λ w w', ∀ b p, dict_get by_keywords b = Some p →
                 objects w' p = objects w p.

(** The record that [all] holds for a bibcode found by both queries has
    the keywords of the [by_keywords] record. *)
Definition keywords_copied (by_keywords by_authors : dict) (w : world)
    (b : string) : Prop :=
  ∀ pk pa, dict_get by_keywords b = Some pk →
           dict_get by_authors b = Some pa →
           is_Some (objects w pk !! "keywords")
           ∧ objects w pa !! "keywords" = objects w pk !! "keywords".

Definition key_le (x y : value * loc) : Prop := value_lt y.1 x.1 = Ok false.

(** [p] does not come after [q] in the order of their bibcodes. *)
Definition bibcode_le (w : world) (p q : loc) : Prop :=
  ∃ kp kq, objects w p !! "bibcode" = Some kp
           ∧ objects w q !! "bibcode" = Some kq
           ∧ value_lt kq kp = Ok false.

Definition string_key (x : value * loc) : Prop := ∃ s, x.1 = VStr s.

Definition returns {A} (o : outcome A) : Prop := ∃ a, o = Ok a.

(** The record at [p] has what the three loops read: a bibcode, a property
    field that can be searched, and in each of the five columns nothing,
    a false value, or a value that can be joined. *)
Definition enrichable (w : world) (p : loc) : Prop :=
  is_Some (objects w p !! "bibcode")
  ∧ (∃ prop, objects w p !! "property" = Some prop
             ∧ returns (py_in "REFEREED" prop))
  ∧ ∀ c v, c ∈ list_value_columns → objects w p !! c = Some v →
           truthy v = true → returns (py_join ", " v).

(** The state of the path of the file: the four fields of the world
    that describe it. *)
Record file_state := FileState {
  state_text : option string;
  state_writable : bool;
  state_created : bool;
  state_read_error : option exn
}.

(** The same world with another state of the file. *)
Definition with_file (f : file_state) (w : world) : world :=
  World (objects w) (state_text f) (state_writable f) (state_created f)
    (state_read_error f).

(** A computation [file_blind] neither reads nor writes the file: in a
    world that differs in the file only it does the same. *)
Definition file_blind {A} (m : M A) : Prop :=
  ∀ w f, m (with_file f w) = (with_file f (m w).1, (m w).2).

(** ** Two small query results, used to run the code *)

Definition record_of (fields : list (string * value)) : gmap string value :=
  list_to_map fields.

(** Record 0 was found by keyword; records 1 and 2 by author; 0 and 2 are
    the same publication. The file lists the bibcode of record 1. *)
Definition example_world : world :=
  World
    (λ p, match p with
          | 0%nat => record_of
              [("bibcode", VStr "2017MNRAS.471..600B");
               ("property", VList ["ARTICLE"; "REFEREED"]);
               ("author", VList ["Buckley, D."; "Potter, S."]);
               ("title", VList ["Polarimetry with SALT"]);
               ("keywords", VList ["SALT"; "SAAO"])]
          | 1%nat => record_of
              [("bibcode", VStr "2017ApJ...840...10C");
               ("property", VList ["ARTICLE"; "NOT REFEREED"]);
               ("author", VList ["Crawford, S."]);
               ("pub", VStr "The Astrophysical Journal");
               ("keywords", VList [])]
          | 2%nat => record_of
              [("bibcode", VStr "2017MNRAS.471..600B");
               ("property", VList ["REFEREED"]);
               ("author", VList ["Buckley, D."; "Potter, S."]);
               ("doi", VList ["10.1093/mnras/stx1234"]);
               ("keywords", VList [])]
          | _ => ∅
          end)
    (Some ("2017ApJ...840...10C" +:+ String "010"%char EmptyString))
    true true None.

(** The same search with records that the whole of [run_pub] gets through:
    no record holds an empty list.  The file lists the bibcode of
    record 1. *)
Definition complete_world : world :=
  World
    (λ p, match p with
          | 0%nat => record_of
              [("bibcode", VStr "2017MNRAS.471..600B");
               ("property", VList ["ARTICLE"; "REFEREED"]);
               ("author", VList ["Buckley, D."; "Potter, S."]);
               ("title", VList ["Polarimetry with SALT"]);
               ("keywords", VList ["SALT"; "SAAO"])]
          | 1%nat => record_of
              [("bibcode", VStr "2017ApJ...840...10C");
               ("property", VList ["ARTICLE"; "NOT REFEREED"]);
               ("author", VList ["Crawford, S."]);
               ("pub", VStr "The Astrophysical Journal")]
          | 2%nat => record_of
              [("bibcode", VStr "2017MNRAS.471..600B");
               ("property", VList ["REFEREED"]);
               ("author", VList ["Buckley, D."; "Potter, S."]);
               ("doi", VList ["10.1093/mnras/stx1234"])]
          | _ => ∅
          end)
    (Some ("2017ApJ...840...10C" +:+ String "010"%char EmptyString))
    true true None.

Definition example_by_keywords : dict := [("2017MNRAS.471..600B", 0%nat)].

Definition example_by_authors : dict :=
  [("2017ApJ...840...10C", 1%nat); ("2017MNRAS.471..600B", 2%nat)].

Definition example_str (v : value) : string :=
  match v with
  | VNone => "None"
  | VBool true => "True"
  | VBool false => "False"
  | _ => EmptyString
  end.

(** Two author records that are one object: the case [merge_results_both]
    excludes. *)
Definition shared_world : world :=
  World
    (λ p, match p with
          | 0%nat => record_of [("keywords", VList ["SALT"])]
          | 1%nat => record_of [("keywords", VList [])]
          | 2%nat => record_of [("keywords", VList ["SAAO"])]
          | _ => ∅
          end)
    None false false None.

Definition shared_by_keywords : dict := [("A", 0%nat); ("B", 2%nat)].

Definition shared_by_authors : dict := [("A", 1%nat); ("B", 1%nat)].

Ltac each_element H :=
  repeat (apply elem_of_cons in H as [->|H]);
  [.. | by apply elem_of_nil in H].

(** ** Vocabulary of the further properties *)

(** A log of bibcodes: one to a line. *)
Fixpoint bibcode_log (bibcodes : list string) : string :=
  match bibcodes with
  | [] => EmptyString
  | b :: rest => b +:+ newline +:+ bibcode_log rest
  end.

Definition newline_free (s : string) : Prop :=
  "010"%char ∉ list_ascii_of_string s.

(** A line as [readlines] yields it: a newline can only be its last
    character. *)
Definition newline_last (s : string) : Prop :=
  ∀ pre post, s = pre +:+ String "010" post → post = EmptyString.





(** What [p.get(c, '')] finds for every column [c]. *)
Definition row_of (w : world) (columns : list string) (p : loc) : list value :=
  (λ c, default (VStr EmptyString) (objects w p !! c)) <$> columns.


(** What the first cell that [worksheet.write] refuses raises. *)
Fixpoint first_refused (cells : list value) : option exn :=
  match cells with
  | [] => None
  | v :: rest =>
      match worksheet_write v with
      | Raise e => Some e
      | Ok _ => first_refused rest
      end
  end.




(** The character [c] does not occur in [s]. *)
Definition char_free (c : ascii) (s : string) : Prop :=
  c ∉ list_ascii_of_string s.

(** The two characters [a], [b] do not occur next to each other in [s]. *)
Fixpoint pair_free (a b : ascii) (s : string) : Prop :=
  match s with
  | EmptyString => True
  | String c s' =>
      match s' with
      | String d _ => ¬ (c = a ∧ d = b) ∧ pair_free a b s'
      | EmptyString => True
      end
  end.

(** A line of [authors.txt] that unpacks: one ': ', with a key before it
    and a value after it. *)
Definition author_line (line : string) : Prop :=
  ∃ key value, line = key +:+ ": " +:+ value
               ∧ pair_free ":" " " key ∧ pair_free ":" " " value.

(** The text of an [authors.txt] with one entry to a line. *)
Fixpoint authors_file (entries : list (string * string)) : string :=
  match entries with
  | [] => EmptyString
  | (key, name) :: rest =>
      (key +:+ ": " +:+ name) +:+ newline +:+ authors_file rest
  end.

(** The letter of spreadsheet column [i], for [i] below 26: the
    character with code [ord('A') + i]. *)
Definition column_letter (i : nat) : string :=
  String (ascii_of_nat (65 + i)) EmptyString.

(** The lines of the column explanation, from letter number [i]. *)
Fixpoint explained (i : nat) (columns : list (string * string)) : list string :=
  match columns with
  | [] => []
  | (_, title) :: rest =>
      (column_letter i +:+ " - " +:+ title +:+ "<br>")
      :: explained (S i) rest
  end.

(** The same lines without their markup. *)
Fixpoint explained_plain (i : nat) (columns : list (string * string))
  : list string :=
  match columns with
  | [] => []
  | (_, title) :: rest =>
      (column_letter i +:+ " - " +:+ title)
      :: explained_plain (S i) rest
  end.

(** The text body one expects: the HTML body without its tags. *)
Definition mail_plain (explanation : string) : string :=
  "Dear Librarian," +:+ newline +:+ newline
  +:+ "Please find attached the results for the publications query."
  +:+ newline +:+ newline
  +:+ explanation +:+ newline +:+ newline
  +:+ "Kind regards," +:+ newline +:+ newline
  +:+ "Your Friendly Publications Query Script".

(** ** A small configuration, used to run the code *)

Definition example_environ : gmap string string :=
  list_to_map
    [("SECRET-KEY", "secret"); ("KEY", "ads-key");
     ("FROM_EMAIL", "query@saao.ac.za");
     ("LIBRARIANS_EMAIL", "library@saao.ac.za&archive@saao.ac.za")].

(** A [keys.txt] whose first line ends with a carriage return and a line
    feed. *)
Definition example_keys_txt : string :=
  "SALT" +:+ String "013" newline +:+ newline
  +:+ "Southern African Large Telescope".

(** The first author is listed twice. *)
Definition example_authors : list (string * string) :=
  [("Buckley, D.", "David Buckley");
   ("Crawford, S.", "Steve Crawford");
   ("Buckley, D.", "David A. H. Buckley")].

Definition example_config : config :=
  Config "secret" "ads-key"
    [("Buckley, D.", "David A. H. Buckley" +:+ newline);
     ("Crawford, S.", "Steve Crawford" +:+ newline)]
    ["SALT"; EmptyString; "Southern African Large Telescope"]
    "query@saao.ac.za"
    ["library@saao.ac.za"; "archive@saao.ac.za"].

(** An [authors.txt] with an empty line. *)
Definition example_bad_authors_txt : string :=
  "Buckley, D.: David Buckley" +:+ newline +:+ newline
  +:+ "Crawford, S.: Steve Crawford" +:+ newline.

(** A record whose title is a string, not a list. *)
Definition string_title_world : world :=
  World
    (λ p, match p with
          | 0%nat => record_of
              [("bibcode", VStr "2017MNRAS.471..600B");
               ("property", VList ["REFEREED"]);
               ("title", VStr "SALT")]
          | _ => ∅
          end)
    None false false None.

(** * Properties *)

Lemma prefix_app (sub s : string) :
  String.prefix sub s = true ↔ ∃ post, s = sub +:+ post.
Proof.
  revert s. induction sub as [|a sub IH]; intros s.
  - destruct s; simpl; split; eauto.
  - destruct s as [|b s]; simpl.
    + split; [done | intros [post H]; discriminate].
    + destruct (ascii_dec a b) as [->|Hne].
      * rewrite IH. split; intros [post H]; exists post.
        -- by rewrite H.
        -- by injection H.
      * split; [done | intros [post H]; injection H; congruence].
Qed.

Lemma contains_spec (sub s : string) :
  PyStr.contains sub s = true ↔ PyStr.has_substring sub s.
Proof.
  unfold PyStr.has_substring.
  induction s as [|c s IH]; cbn [PyStr.contains].
  - rewrite orb_false_r, prefix_app. split.
    + intros [post H]. by exists EmptyString, post.
    + intros ([|? pre] & post & H); [by exists post | discriminate].
  - rewrite orb_true_iff, prefix_app, IH. split.
    + intros [[post H] | (pre & post & H)].
      * by exists EmptyString, post.
      * exists (String c pre), post. simpl. by rewrite H.
    + intros ([|a pre] & post & H).
      * left. by exists post.
      * right. exists pre, post. by injection H.
Qed.

Example ignore_tmp_example :
  ignore_tmp_bibcodes ["2017MNRAS.471..600B"; "2017arXiv1706tmp01X"; "tmp"; ""]
  = ["2017MNRAS.471..600B"; ""].
Proof. reflexivity. Qed.

(** C10: [ignore_tmp_bibcodes] keeps, in their original order, exactly the
    bibcodes that do not contain "tmp" as a substring: the result is a
    subsequence of the input, its elements are the elements of the input
    without the substring, every subsequence of the input free of "tmp" is
    a subsequence of the result, and filtering twice equals filtering once. *)
Theorem ignore_tmp_bibcodes_spec (bibcodes : list string) :
  ignore_tmp_bibcodes bibcodes `sublist_of` bibcodes
  ∧ (∀ b, b ∈ ignore_tmp_bibcodes bibcodes
          ↔ b ∈ bibcodes ∧ ¬ PyStr.has_substring "tmp" b)
  ∧ (∀ kept, kept `sublist_of` bibcodes →
             Forall (λ b, ¬ PyStr.has_substring "tmp" b) kept →
             kept `sublist_of` ignore_tmp_bibcodes bibcodes)
  ∧ ignore_tmp_bibcodes (ignore_tmp_bibcodes bibcodes)
    = ignore_tmp_bibcodes bibcodes.
Proof.
  unfold ignore_tmp_bibcodes. split; [|split; [|split]].
  - induction bibcodes as [|b l IH]; simpl; [constructor|].
    destruct (PyStr.contains "tmp" b); simpl; by constructor.
  - intros b. rewrite !list_elem_of_In, filter_In, <- contains_spec.
    destruct (PyStr.contains "tmp" b); simpl; intuition congruence.
  - intros kept Hsub. induction Hsub as [|x l1 l2 Hsub IH|x l1 l2 Hsub IH];
      intros Hfree; simpl.
    + constructor.
    + inversion Hfree as [|? ? Hx Hfree']; subst.
      rewrite <- contains_spec in Hx.
      destruct (PyStr.contains "tmp" x); [done|]. simpl.
      constructor. by apply IH.
    + destruct (PyStr.contains "tmp" x); simpl; [|constructor]; by apply IH.
  - induction bibcodes as [|b l IH]; simpl; [done|].
    destruct (PyStr.contains "tmp" b) eqn:Hb; simpl; [done|].
    by rewrite Hb, IH.
Qed.

(** ** The monad *)

Section monad.

Context {A B : Type}.

Lemma bind_inv (m : M A) (f : A → M B) w w' r :
  (m ≫= f) w = (w', r) →
  (∃ w1 a, m w = (w1, Ok a) ∧ f a w1 = (w', r))
  ∨ (∃ e, m w = (w', Raise e) ∧ r = Raise e).
Proof.
  unfold mbind, M_bind. destruct (m w) as [w1 [a|e]]; intros H.
  - left. eauto.
  - right. exists e. by simplify_eq.
Qed.

Lemma bind_ok_inv (m : M A) (f : A → M B) w w' b :
  (m ≫= f) w = (w', Ok b) →
  ∃ w1 a, m w = (w1, Ok a) ∧ f a w1 = (w', Ok b).
Proof.
  intros [H | (e & _ & ?)]%bind_inv; [done | discriminate].
Qed.

Lemma bind_ok (m : M A) (f : A → M B) w w1 a :
  m w = (w1, Ok a) → (m ≫= f) w = f a w1.
Proof. unfold mbind, M_bind. by intros ->. Qed.

End monad.

Section preservation.

Context (R : relation world) `{!PreOrder R}.

Lemma reads_only_preserves {A} (m : M A) : reads_only m → preserves R m.
Proof. intros Hm w w' r ->%Hm. reflexivity. Qed.

Lemma preserves_bind {A B} (m : M A) (f : A → M B) :
  preserves R m → (∀ a, preserves R (f a)) → preserves R (m ≫= f).
Proof.
  intros Hm Hf w w' r [(w1 & a & H1 & H2) | (e & H1 & _)]%bind_inv.
  - etrans; [by eapply Hm | by eapply Hf].
  - by eapply Hm.
Qed.

Lemma preserves_for {A} (xs : list A) (body : A → M unit) :
  (∀ x, x ∈ xs → preserves R (body x)) → preserves R (for_ xs body).
Proof.
  induction xs as [|x xs IH]; intros Hbody; simpl.
  - intros w w' r [= <- _]. reflexivity.
  - apply preserves_bind.
    + apply Hbody. left.
    + intros _. apply IH. intros y Hy. apply Hbody. by right.
Qed.

End preservation.

Lemma reads_only_ret {A} (a : A) : reads_only (mret a).
Proof. by intros w w' r [= <- _]. Qed.

Lemma reads_only_raise {A} e : reads_only (@raise A e).
Proof. by intros w w' r [= <- _]. Qed.

Lemma reads_only_lift {A} (o : outcome A) : reads_only (lift o).
Proof. by intros w w' r [= <- _]. Qed.

Lemma reads_only_getitem p k : reads_only (getitem p k).
Proof.
  intros w w' r. unfold getitem.
  by destruct (objects w p !! k); intros [= <- _].
Qed.

Lemma reads_only_haskey p k : reads_only (haskey p k).
Proof. by intros w w' r [= <- _]. Qed.

Lemma reads_only_getdefault p k d : reads_only (getdefault p k d).
Proof. by intros w w' r [= <- _]. Qed.

Lemma reads_only_dict_getitem d k : reads_only (dict_getitem d k).
Proof.
  unfold dict_getitem. destruct (dict_get d k);
    [apply reads_only_ret | apply reads_only_raise].
Qed.

Lemma reads_only_bind {A B} (m : M A) (f : A → M B) :
  reads_only m → (∀ a, reads_only (f a)) → reads_only (m ≫= f).
Proof.
  intros Hm Hf w w' r [(w1 & a & H1 & H2) | (e & H1 & _)]%bind_inv.
  - apply Hm in H1 as ->. by eapply Hf.
  - by eapply Hm.
Qed.

Lemma reads_only_comprehension {A B} (f : A → M B) xs :
  (∀ x, reads_only (f x)) → reads_only (comprehension f xs).
Proof.
  intros Hf. induction xs as [|x xs IH]; simpl; [apply reads_only_ret|].
  apply reads_only_bind; [done | intros y].
  apply reads_only_bind; [done | intros ys]. apply reads_only_ret.
Qed.

(** ** Assignments to a field *)

Lemma setitem_field p k v w l k' :
  objects (setitem p k v w).1 l !! k'
  = if decide (p = l ∧ k = k') then Some v else objects w l !! k'.
Proof.
  simpl. unfold insert at 1, fn_insert.
  destruct (decide (p = l)) as [->|Hl].
  - destruct (decide (k = k')) as [->|Hk].
    + rewrite lookup_insert_eq. by rewrite decide_True.
    + rewrite lookup_insert_ne by done. rewrite decide_False; [done|tauto].
  - rewrite decide_False; [done|tauto].
Qed.

Lemma setitem_object_ne p k v w l :
  p ≠ l → objects (setitem p k v w).1 l = objects w l.
Proof. intros Hl. simpl. by rewrite fn_lookup_insert_ne. Qed.

Global Instance same_fields_except_po ks : PreOrder (same_fields_except ks).
Proof.
  split; [by intros w l k _|].
  intros w1 w2 w3 H12 H23 l k Hk. by rewrite H23, H12.
Qed.

Global Instance same_objects_outside_po ps : PreOrder (same_objects_outside ps).
Proof.
  split; [by intros w l _|].
  intros w1 w2 w3 H12 H23 l Hl. by rewrite H23, H12.
Qed.

Global Instance same_file_po : PreOrder same_file.
Proof.
  split; [by intros w|].
  intros w1 w2 w3 (H1 & H2 & H3 & H4) (H5 & H6 & H7 & H8).
  split_and!; congruence.
Qed.

Lemma same_fields_except_mono ks ks' w w' :
  ks ⊆ ks' → same_fields_except ks w w' → same_fields_except ks' w w'.
Proof. intros Hsub H l k Hk. apply H. set_solver. Qed.

Lemma same_objects_outside_mono ps ps' w w' :
  ps ⊆ ps' → same_objects_outside ps w w' → same_objects_outside ps' w w'.
Proof. intros Hsub H l Hl. apply H. set_solver. Qed.

Lemma setitem_same_fields p k v ks :
  k ∈ ks → preserves (same_fields_except ks) (setitem p k v).
Proof.
  intros Hk w w' r [= <- _] l k' Hk'.
  etrans; [apply (setitem_field p k v w l k')|].
  rewrite decide_False; [done|]. intros [_ ->]. done.
Qed.

Lemma setitem_same_objects p k v ps :
  p ∈ ps → preserves (same_objects_outside ps) (setitem p k v).
Proof.
  intros Hp w w' r [= <- _] l Hl.
  apply (setitem_object_ne p k v w l). intros ->. done.
Qed.

Lemma setitem_same_file p k v : preserves same_file (setitem p k v).
Proof. by intros w w' r [= <- _]. Qed.

(** ** Loops *)

Section loops.

Context {A : Type} (body : A → M unit).

Lemma for_ok_cons_inv x xs w w' :
  for_ (x :: xs) body w = (w', Ok tt) →
  ∃ w1, body x w = (w1, Ok tt) ∧ for_ xs body w1 = (w', Ok tt).
Proof.
  simpl. intros (w1 & [] & H1 & H2)%bind_ok_inv. eauto.
Qed.

(** A property that every iteration establishes for its own element and
    no iteration destroys holds of every element after the loop, also
    when an element occurs more than once. *)
Lemma for_establish (Q : world → A → Prop) xs w w' :
  (∀ x w w', body x w = (w', Ok tt) → Q w' x) →
  (∀ x y w w' r, body y w = (w', r) → Q w x → Q w' x) →
  for_ xs body w = (w', Ok tt) →
  ∀ x, x ∈ xs → Q w' x.
Proof.
  intros Hest Hkeep. revert w.
  induction xs as [|y xs IH]; intros w Hrun x Hx.
  - by apply elem_of_nil in Hx.
  - apply for_ok_cons_inv in Hrun as (w1 & Hy & Hrest).
    assert (∀ z, Q w1 z → Q w' z) as Hkeep_rest.
    { intros z. apply (preserves_for (λ u u', Q u z → Q u' z) xs body
        (PreOrder0 := Build_PreOrder _ (λ _ H, H) (λ _ _ _ H1 H2 H, H2 (H1 H))))
        with (r := Ok tt); [|done].
      intros y' _ u u' r Hr. by eapply Hkeep. }
    apply elem_of_cons in Hx as [->|Hx].
    + apply Hkeep_rest. by eapply Hest.
    + by eapply IH.
Qed.

(** Over distinct elements, when an iteration changes only the part of
    the world that belongs to its element ([view]), every element has
    gone through exactly one iteration. *)
Lemma for_each_once {V} (view : world → A → V) (S : A → V → V → Prop)
    xs w w' :
  (∀ x y w w' r, body y w = (w', r) → x ≠ y → view w' x = view w x) →
  (∀ x w w', body x w = (w', Ok tt) → S x (view w x) (view w' x)) →
  NoDup xs →
  for_ xs body w = (w', Ok tt) →
  ∀ x, x ∈ xs → S x (view w x) (view w' x).
Proof.
  intros Hframe Hstep Hnd. revert w.
  induction Hnd as [|y xs Hy Hnd IH]; intros w Hrun x Hx.
  - by apply elem_of_nil in Hx.
  - apply for_ok_cons_inv in Hrun as (w1 & Hbody & Hrest).
    apply elem_of_cons in Hx as [->|Hx].
    + assert (view w' y = view w1 y) as ->; [|by apply Hstep].
      apply (preserves_for (λ u u', view u' y = view u y) xs body
        (PreOrder0 := Build_PreOrder _ (λ _, eq_refl)
           (λ _ _ _ H1 H2, eq_trans H2 H1))) with (r := Ok tt); [|done].
      intros z Hz u u' r Hr. eapply Hframe; [done|]. by intros ->.
    + assert (view w1 x = view w x) as <-.
      { eapply Hframe; [done|]. by intros ->. }
      by apply IH.
Qed.

(** A loop returns when every iteration returns and keeps an invariant. *)
Lemma for_returns (I : world → Prop) xs w :
  I w →
  (∀ x u, x ∈ xs → I u → ∃ u', body x u = (u', Ok tt) ∧ I u') →
  ∃ w', for_ xs body w = (w', Ok tt) ∧ I w'.
Proof.
  revert w. induction xs as [|x xs IH]; intros w Hw Hbody; simpl.
  - by exists w.
  - destruct (Hbody x w) as (u & Hx & Hu); [by left | done |].
    destruct (IH u Hu) as (w' & Hrest & Hw').
    { intros y v Hy. apply Hbody. by right. }
    exists w'. split; [|done]. by rewrite (bind_ok _ _ w u tt Hx).
Qed.

End loops.

(** ** Enrichment *)

Section enrichment.

Variable str_of_other : value → string.

Local Abbreviation url_of := (ads_url_of str_of_other).

  (** What one iteration does to the world, case by case. *)
Lemma join_column_cases p c w w' r :
    join_column p c w = (w', r) →
    (w' = w ∧ r = Ok tt ∧
       (objects w p !! c = None
        ∨ ∃ v, objects w p !! c = Some v ∧ truthy v = false))
    ∨ (∃ v, w' = w ∧ r = Raise TypeError ∧ objects w p !! c = Some v
            ∧ truthy v = true ∧ py_join ", " v = Raise TypeError)
    ∨ (∃ v s, w' = (setitem p c (VStr s) w).1 ∧ r = Ok tt
              ∧ objects w p !! c = Some v ∧ truthy v = true
              ∧ py_join ", " v = Ok (VStr s)).
  Proof.
    unfold join_column, haskey, getitem, mbind, M_bind, lift, setitem.
    destruct (objects w p !! c) as [v|] eqn:Hv; simpl.
    - rewrite Hv. destruct (truthy v) eqn:Ht.
      + destruct v as [|b|z|s|l]; simpl; intros [= <- <-];
          first [ right; left; eexists; by repeat split
                | right; right; eexists _, _; by repeat split ].
      + intros [= <- <-]. left. split_and!; [done..|]. right. by exists v.
    - intros [= <- <-]. left. split_and!; [done..|]. by left.
  Qed.

Lemma add_ads_url_fields publications :
    preserves (same_fields_except ["ads_url"]) (add_ads_url str_of_other publications).
  Proof.
    apply preserves_for; [apply _|]. intros p _.
    apply preserves_bind; [apply _ | |].
    - apply reads_only_preserves; [apply _ | apply reads_only_getitem].
    - intros b. apply setitem_same_fields. set_solver.
  Qed.

Lemma add_refereed_fields publications :
    preserves (same_fields_except ["refereed"]) (add_refereed publications).
  Proof.
    apply preserves_for; [apply _|]. intros p _.
    apply preserves_bind; [apply _ | |].
    - apply reads_only_preserves; [apply _ | apply reads_only_getitem].
    - intros prop. apply preserves_bind; [apply _ | |].
      + apply reads_only_preserves; [apply _ | apply reads_only_lift].
      + intros b. apply setitem_same_fields. set_solver.
  Qed.

Lemma join_column_fields p c :
    preserves (same_fields_except [c]) (join_column p c).
  Proof.
    intros w w' r [(-> & _) | [(v & -> & _) | (v & s & -> & _)]]%join_column_cases;
      [reflexivity.. |].
    eapply (setitem_same_fields p c (VStr s) [c]); [set_solver | done].
  Qed.

Lemma join_list_values_fields publications :
    preserves (same_fields_except list_value_columns)
      (join_list_values publications).
  Proof.
    apply preserves_for; [apply _|]. intros p _.
    apply preserves_for; [apply _|]. intros c Hc w w' r Hrun.
    eapply same_fields_except_mono; [|by eapply join_column_fields].
    set_solver.
  Qed.

Lemma enrich_fields publications :
    preserves (same_fields_except enriched_fields) (enrich str_of_other publications).
  Proof.
    unfold enrich.
    apply preserves_bind; [apply _ | |].
    { intros w w' r H. eapply same_fields_except_mono;
        [|by eapply add_ads_url_fields]. set_solver. }
    intros _. apply preserves_bind; [apply _ | |].
    { intros w w' r H. eapply same_fields_except_mono;
        [|by eapply add_refereed_fields]. set_solver. }
    intros _ w w' r H. eapply same_fields_except_mono;
      [|by eapply join_list_values_fields].
    unfold list_value_columns, enriched_fields. set_solver.
  Qed.

  (** *** The URL loop *)

Lemma ads_url_step p w w' r :
    (getitem p "bibcode" ≫= λ b, setitem p "ads_url" (url_of b)) w
      = (w', r) →
    (w' = w ∧ r = Raise KeyError ∧ objects w p !! "bibcode" = None)
    ∨ (∃ b, objects w p !! "bibcode" = Some b ∧ r = Ok tt
            ∧ w' = (setitem p "ads_url" (url_of b) w).1).
  Proof.
    unfold getitem, mbind, M_bind.
    destruct (objects w p !! "bibcode") as [b|]; intros [= <- <-].
    - right. by exists b.
    - by left.
  Qed.

Lemma has_ads_url_frame ks w w' p :
    "bibcode" ∉ ks → "ads_url" ∉ ks →
    same_fields_except ks w w' → has_ads_url str_of_other w p → has_ads_url str_of_other w' p.
  Proof.
    intros Hb Hu Hsame (b & H1 & H2). exists b.
    by rewrite !Hsame.
  Qed.

Lemma add_ads_url_spec publications w w' :
    add_ads_url str_of_other publications w = (w', Ok tt) →
    ∀ p, p ∈ publications → has_ads_url str_of_other w' p.
  Proof.
    apply for_establish.
    - intros p u u' [(_ & ? & _) | (b & Hb & _ & ->)]%ads_url_step; [done|].
      exists b. rewrite !setitem_field.
      rewrite decide_False, decide_True by naive_solver. done.
    - intros x y u u' r [(-> & _) | (b & Hb & _ & ->)]%ads_url_step; [done|].
      intros (bx & Hbx & Hux). exists bx. rewrite !setitem_field.
      rewrite decide_False by naive_solver. split; [done|].
      case_decide as Hxy; [|done]. destruct Hxy as [-> _]. congruence.
  Qed.

  (** *** The refereed loop *)

Lemma refereed_step p w w' r :
    (getitem p "property" ≫= λ prop,
       lift (py_in "REFEREED" prop) ≫= λ b,
       setitem p "refereed" (VBool b)) w = (w', r) →
    (w' = w ∧ ∃ e, r = Raise e)
    ∨ (∃ prop b, objects w p !! "property" = Some prop
            ∧ py_in "REFEREED" prop = Ok b ∧ r = Ok tt
            ∧ w' = (setitem p "refereed" (VBool b) w).1).
  Proof.
    unfold getitem, mbind, M_bind, lift.
    destruct (objects w p !! "property") as [prop|]; [|intros [= <- <-]; eauto].
    destruct (py_in "REFEREED" prop) as [b|e] eqn:Hin; intros [= <- <-].
    - right. by exists prop, b.
    - eauto.
  Qed.

Lemma has_refereed_frame ks w w' p :
    "property" ∉ ks → "refereed" ∉ ks →
    same_fields_except ks w w' → has_refereed w p → has_refereed w' p.
  Proof.
    intros Hb Hu Hsame (prop & b & H1 & H2 & H3). exists prop, b.
    by rewrite !Hsame.
  Qed.

Lemma add_refereed_spec publications w w' :
    add_refereed publications w = (w', Ok tt) →
    ∀ p, p ∈ publications → has_refereed w' p.
  Proof.
    apply for_establish.
    - intros p u u' [(_ & e & ?) | (prop & b & Hp & Hb & _ & ->)]%refereed_step;
        [done|].
      exists prop, b. rewrite !setitem_field.
      rewrite decide_False, decide_True by naive_solver. done.
    - intros x y u u' r
        [(-> & _) | (prop & b & Hp & Hb & _ & ->)]%refereed_step; [done|].
      intros (px & bx & Hpx & Hbx & Hrx). exists px, bx.
      rewrite !setitem_field.
      rewrite decide_False by naive_solver. split_and!; [done..|].
      case_decide as Hxy; [|done]. destruct Hxy as [-> _]. congruence.
  Qed.

Lemma enrich_ok_inv publications w w' :
    enrich str_of_other publications w = (w', Ok tt) →
    ∃ w1 w2, add_ads_url str_of_other publications w = (w1, Ok tt)
             ∧ add_refereed publications w1 = (w2, Ok tt)
             ∧ join_list_values publications w2 = (w', Ok tt).
  Proof.
    intros (w1 & [] & H1 & (w2 & [] & H2 & H3)%bind_ok_inv)%bind_ok_inv.
    eauto.
  Qed.

(** *** The normalisation loop *)

Lemma join_column_objects p c :
  preserves (same_objects_outside [p]) (join_column p c).
Proof.
  intros w w' r [(-> & _) | [(v & -> & _) | (v & s & -> & _)]]%join_column_cases;
    [reflexivity.. |].
  eapply (setitem_same_objects p c (VStr s) [p]); [set_solver | done].
Qed.

Lemma join_column_file p c : preserves same_file (join_column p c).
Proof.
  intros w w' r [(-> & _) | [(v & -> & _) | (v & s & -> & _)]]%join_column_cases;
    by split.
Qed.

Global Instance keeps_empty_fields_po : PreOrder keeps_empty_fields.
Proof.
  split; [by intros w p c _ _|].
  intros w1 w2 w3 H12 H23 p c Hc Hempty.
  rewrite H23; [by apply H12 | done |]. by rewrite H12.
Qed.

Lemma same_fields_keeps_empty ks w w' :
  (∀ c, c ∈ list_value_columns → c ∉ ks) →
  same_fields_except ks w w' → keeps_empty_fields w w'.
Proof. intros Hks Hsame p c Hc _. by apply Hsame, Hks. Qed.

Lemma join_column_keeps_empty p c :
  preserves keeps_empty_fields (join_column p c).
Proof.
  intros w w' r [(-> & _) | [(v & -> & _) | (v & s & -> & _ & Hv & Ht & _)]]
    %join_column_cases; [reflexivity.. |].
  intros p' c' _ Hempty. rewrite setitem_field.
  case_decide as Heq; [|done]. destruct Heq as [-> ->].
  rewrite Hv in Hempty. simpl in Hempty. congruence.
Qed.

Global Instance keeps_joined_po : PreOrder keeps_joined.
Proof.
  split; [by intros w p c|].
  intros w1 w2 w3 H12 H23 p c Hc. by apply H23, H12.
Qed.




Lemma list_value_columns_NoDup : NoDup list_value_columns.
Proof. apply (bool_decide_unpack _). by vm_compute. Qed.

Lemma join_row_objects p cs :
  preserves (same_objects_outside [p]) (for_ cs (join_column p)).
Proof. apply preserves_for; [apply _|]. intros c _. apply join_column_objects. Qed.



(** *** Frames of the three loops *)

Lemma add_ads_url_objects publications :
  preserves (same_objects_outside publications)
    (add_ads_url str_of_other publications).
Proof.
  apply preserves_for; [apply _|]. intros p Hp.
  apply preserves_bind; [apply _ | |].
  - apply reads_only_preserves; [apply _ | apply reads_only_getitem].
  - intros b. by apply setitem_same_objects.
Qed.

Lemma add_refereed_objects publications :
  preserves (same_objects_outside publications) (add_refereed publications).
Proof.
  apply preserves_for; [apply _|]. intros p Hp.
  apply preserves_bind; [apply _ | |].
  - apply reads_only_preserves; [apply _ | apply reads_only_getitem].
  - intros prop. apply preserves_bind; [apply _ | |].
    + apply reads_only_preserves; [apply _ | apply reads_only_lift].
    + intros b. by apply setitem_same_objects.
Qed.

Lemma join_list_values_objects publications :
  preserves (same_objects_outside publications)
    (join_list_values publications).
Proof.
  apply preserves_for; [apply _|]. intros p Hp w w' r Hrun.
  eapply same_objects_outside_mono; [|by eapply join_row_objects].
  set_solver.
Qed.

Lemma add_ads_url_file publications :
  preserves same_file (add_ads_url str_of_other publications).
Proof.
  apply preserves_for; [apply _|]. intros p Hp.
  apply preserves_bind; [apply _ | |].
  - apply reads_only_preserves; [apply _ | apply reads_only_getitem].
  - intros b. by apply setitem_same_file.
Qed.

Lemma add_refereed_file publications :
  preserves same_file (add_refereed publications).
Proof.
  apply preserves_for; [apply _|]. intros p Hp.
  apply preserves_bind; [apply _ | |].
  - apply reads_only_preserves; [apply _ | apply reads_only_getitem].
  - intros prop. apply preserves_bind; [apply _ | |].
    + apply reads_only_preserves; [apply _ | apply reads_only_lift].
    + intros b. by apply setitem_same_file.
Qed.

Lemma join_list_values_file publications :
  preserves same_file (join_list_values publications).
Proof.
  apply preserves_for; [apply _|]. intros p _.
  apply preserves_for; [apply _|]. intros c _. apply join_column_file.
Qed.

Lemma join_list_values_keeps_empty publications :
  preserves keeps_empty_fields (join_list_values publications).
Proof.
  apply preserves_for; [apply _|]. intros p _.
  apply preserves_for; [apply _|]. intros c _. apply join_column_keeps_empty.
Qed.

Lemma enrich_objects publications :
  preserves (same_objects_outside publications)
    (enrich str_of_other publications).
Proof.
  apply preserves_bind; [apply _ | apply add_ads_url_objects |].
  intros _. apply preserves_bind; [apply _ | apply add_refereed_objects |].
  intros _. apply join_list_values_objects.
Qed.

Lemma enrich_file publications :
  preserves same_file (enrich str_of_other publications).
Proof.
  apply preserves_bind; [apply _ | apply add_ads_url_file |].
  intros _. apply preserves_bind; [apply _ | apply add_refereed_file |].
  intros _. apply join_list_values_file.
Qed.

Lemma enrich_keeps_empty publications :
  preserves keeps_empty_fields (enrich str_of_other publications).
Proof.
  apply preserves_bind; [apply _ | |].
  { intros w w' r H. eapply same_fields_keeps_empty;
      [|by eapply add_ads_url_fields]. unfold list_value_columns. set_solver. }
  intros _. apply preserves_bind; [apply _ | |].
  { intros w w' r H. eapply same_fields_keeps_empty;
      [|by eapply add_refereed_fields]. unfold list_value_columns. set_solver. }
  intros _. apply join_list_values_keeps_empty.
Qed.

(** *** The loops return on records of the expected shape *)

Lemma enrichable_frame w w' p :
  (∀ k, k ∈ "bibcode" :: "property" :: list_value_columns →
        objects w' p !! k = objects w p !! k) →
  enrichable w p → enrichable w' p.
Proof.
  intros Hsame (Hbib & (prop & Hprop & Hin) & Hcols). split_and!.
  - rewrite Hsame; [done | set_solver].
  - exists prop. rewrite Hsame; [done | set_solver].
  - intros c v Hc. rewrite Hsame; [by apply Hcols | set_solver].
Qed.

Lemma setitem_enrichable p k v w q :
  k ∉ "bibcode" :: "property" :: list_value_columns →
  enrichable w q → enrichable (setitem p k v w).1 q.
Proof.
  intros Hk. apply enrichable_frame. intros k' Hk'.
  rewrite setitem_field. rewrite decide_False; [done|].
  intros [_ ->]. done.
Qed.

Lemma join_column_returns p c w :
  c ∈ list_value_columns →
  enrichable w p →
  ∃ w', join_column p c w = (w', Ok tt)
        ∧ ∀ q, enrichable w q → enrichable w' q.
Proof.
  intros Hc Hp. pose proof Hp as (_ & _ & Hcols).
  unfold join_column, haskey, getitem, mbind, M_bind, lift.
  destruct (objects w p !! c) as [v|] eqn:Hv; simpl; [|by exists w].
  rewrite Hv. destruct (truthy v) eqn:Ht; [|by exists w].
  destruct (Hcols c v Hc Hv Ht) as [j Hj]. rewrite Hj.
  exists (setitem p c j w).1. split; [done|].
  intros q (Hbib & (prop & Hprop & Hin) & Hq).
  assert (c ≠ "bibcode" ∧ c ≠ "property") as [Hc1 Hc2].
  { unfold list_value_columns in Hc. set_solver. }
  split_and!.
  - rewrite setitem_field, decide_False; [done | by intros [_ ->]].
  - exists prop. rewrite setitem_field, decide_False; [done | by intros [_ ->]].
  - intros c' v' Hc'. rewrite setitem_field.
    case_decide as Heq; [|by apply Hq].
    intros [= <-] _. destruct v; simpl in Hj; simplify_eq; by eexists.
Qed.

Lemma enrich_returns publications w :
  (∀ p, p ∈ publications → enrichable w p) →
  ∃ w', enrich str_of_other publications w = (w', Ok tt).
Proof.
  intros Hw.
  destruct (for_returns
    (λ p, getitem p "bibcode" ≫= λ b, setitem p "ads_url" (url_of b))
    (λ u, ∀ p, p ∈ publications → enrichable u p) publications w Hw)
    as (w1 & H1 & Hw1).
  { intros p u Hp Hu. destruct (Hu p Hp) as ([b Hb] & _).
    eexists. split.
    - unfold getitem, mbind, M_bind. rewrite Hb. reflexivity.
    - intros q Hq. apply setitem_enrichable; [|by apply Hu].
      unfold list_value_columns. set_solver. }
  destruct (for_returns
    (λ p, getitem p "property" ≫= λ prop,
          lift (py_in "REFEREED" prop) ≫= λ r,
          setitem p "refereed" (VBool r))
    (λ u, ∀ p, p ∈ publications → enrichable u p) publications w1 Hw1)
    as (w2 & H2 & Hw2).
  { intros p u Hp Hu. destruct (Hu p Hp) as (_ & (prop & Hprop & [r Hr]) & _).
    eexists. split.
    - unfold getitem, mbind, M_bind, lift. rewrite Hprop, Hr. reflexivity.
    - intros q Hq. apply setitem_enrichable; [|by apply Hu].
      unfold list_value_columns. set_solver. }
  destruct (for_returns
    (λ p, for_ list_value_columns (join_column p))
    (λ u, ∀ p, p ∈ publications → enrichable u p) publications w2 Hw2)
    as (w3 & H3 & Hw3).
  { intros p u Hp Hu.
    apply (for_returns (join_column p)
             (λ u, ∀ p, p ∈ publications → enrichable u p)); [done|].
    intros c v Hc Hv.
    destruct (join_column_returns p c v Hc) as (v' & Hrun & Hkeep);
      [by apply Hv |].
    exists v'. split; [done|]. intros q Hq. by apply Hkeep, Hv. }
  exists w3. unfold enrich.
  rewrite (bind_ok _ _ w w1 tt H1). by rewrite (bind_ok _ _ w1 w2 tt H2).
Qed.

(** C7: between flattening and rendering, only the fields ads_url, refereed,
    author, title, doi, keywords and page of a record can change (whether
    the loops complete or raise); among author, title, doi, keywords and
    page a field that is absent or empty keeps its state; records that are
    not publications and the bibcode file are untouched. *)
Theorem enrich_frame publications w w' r :
  enrich str_of_other publications w = (w', r) →
  (∀ p k,
     k ∉ ["ads_url"; "refereed"; "author"; "title"; "doi"; "keywords"; "page"] →
     objects w' p !! k = objects w p !! k)
  ∧ (∀ p c,
       c ∈ ["author"; "title"; "doi"; "keywords"; "page"] →
       absent_or_empty (objects w p !! c) →
       objects w' p !! c = objects w p !! c)
  ∧ (∀ p, p ∉ publications → objects w' p = objects w p)
  ∧ previous_bibcodes_file w' = previous_bibcodes_file w.
Proof.
  intros Hrun. split_and!.
  - by apply (enrich_fields publications w w' r).
  - by apply (enrich_keeps_empty publications w w' r).
  - by apply (enrich_objects publications w w' r).
  - by apply (enrich_file publications w w' r).
Qed.

(** C8: after the enrichment the ads_url field of every publication is
    'https://ui.adsabs.harvard.edu/#abs/', then the bibcode the record had,
    then '/abstract'. *)
Theorem enrich_ads_url publications w w' :
  enrich str_of_other publications w = (w', Ok tt) →
  ∀ p, p ∈ publications →
    (∃ b, objects w p !! "bibcode" = Some b
          ∧ objects w' p !! "bibcode" = Some b
          ∧ objects w' p !! "ads_url" = Some (ads_url_of str_of_other b))
    ∧ (∀ s, objects w p !! "bibcode" = Some (VStr s) →
            objects w' p !! "ads_url"
            = Some (VStr ("https://ui.adsabs.harvard.edu/#abs/" +:+ s
                          +:+ "/abstract"))).
Proof.
  intros Hrun p Hp.
  pose proof (enrich_fields publications w w' (Ok tt) Hrun) as Hfields.
  apply enrich_ok_inv in Hrun as (w1 & w2 & H1 & H2 & H3).
  assert (has_ads_url str_of_other w' p) as (b & Hb & Hu).
  { apply (has_ads_url_frame list_value_columns w2);
      [unfold list_value_columns; set_solver.. | by eapply join_list_values_fields |].
    apply (has_ads_url_frame ["refereed"] w1);
      [set_solver.. | by eapply add_refereed_fields |].
    by eapply add_ads_url_spec. }
  assert (objects w p !! "bibcode" = Some b) as Hb0.
  { rewrite <- Hb. symmetry. apply Hfields. unfold enriched_fields. set_solver. }
  split; [by exists b|].
  intros s Hs. rewrite Hs in Hb0. by injection Hb0 as <-.
Qed.

(** C5: after the enrichment the refereed field of a publication whose
    property field held a list is the boolean telling whether 'REFEREED'
    is an element of that list. *)
Theorem enrich_refereed publications w w' :
  enrich str_of_other publications w = (w', Ok tt) →
  ∀ p props, p ∈ publications →
    objects w p !! "property" = Some (VList props) →
    ∃ b, objects w' p !! "refereed" = Some (VBool b)
         ∧ (b = true ↔ "REFEREED" ∈ props).
Proof.
  intros Hrun p props Hp Hprops.
  pose proof (enrich_fields publications w w' (Ok tt) Hrun) as Hfields.
  apply enrich_ok_inv in Hrun as (w1 & w2 & H1 & H2 & H3).
  assert (has_refereed w' p) as (prop & b & Hprop & Hb & Hr).
  { apply (has_refereed_frame list_value_columns w2);
      [unfold list_value_columns; set_solver.. | by eapply join_list_values_fields |].
    by eapply add_refereed_spec. }
  assert (prop = VList props) as ->.
  { rewrite Hfields in Hprop by (unfold enriched_fields; set_solver).
    congruence. }
  simpl in Hb. injection Hb as <-. exists (bool_decide ("REFEREED" ∈ props)).
  split; [done|]. apply bool_decide_eq_true.
Qed.


End enrichment.

(** ** Result mappings *)

Lemma dict_get_None d k : dict_get d k = None ↔ k ∉ keys d.
Proof.
  unfold keys. induction d as [|[k' p] d IH]; simpl.
  - split; [intros _; apply not_elem_of_nil | done].
  - rewrite not_elem_of_cons. case_decide as Hk.
    + split; [done | intros [? _]; congruence].
    + rewrite IH. split; [by split | by intros [_ ?]].
Qed.

Lemma dict_get_Some_keys d k p : dict_get d k = Some p → k ∈ keys d.
Proof.
  intros H. destruct (decide (k ∈ keys d)) as [|Hk]; [done|].
  apply dict_get_None in Hk. congruence.
Qed.

Lemma dict_get_keys d k : k ∈ keys d → is_Some (dict_get d k).
Proof.
  intros Hk. destruct (dict_get d k) eqn:H; [done|].
  by apply dict_get_None in H.
Qed.

Lemma dict_get_set k p d k' :
  dict_get (dict_set k p d) k'
  = if decide (k = k') then Some p else dict_get d k'.
Proof.
  induction d as [|[k0 p0] d IH]; simpl.
  - done.
  - destruct (decide (k0 = k)) as [->|Hk0]; simpl.
    + by destruct (decide (k = k')).
    + rewrite IH. destruct (decide (k0 = k')) as [->|]; [|done].
      by rewrite decide_False by done.
Qed.

Lemma keys_dict_set k p d k' :
  k' ∈ keys (dict_set k p d) ↔ k' = k ∨ k' ∈ keys d.
Proof.
  unfold keys. induction d as [|[k0 p0] d IH]; simpl.
  - rewrite elem_of_cons. done.
  - destruct (decide (k0 = k)) as [->|Hk0]; simpl.
    + rewrite !elem_of_cons. tauto.
    + rewrite !elem_of_cons, IH. tauto.
Qed.

Lemma dict_set_wf k p d : dict_wf d → dict_wf (dict_set k p d).
Proof.
  unfold dict_wf. induction d as [|[k0 p0] d IH]; simpl.
  - intros _. apply NoDup_singleton.
  - intros [Hk0 Hd]%list.NoDup_cons.
    destruct (decide (k0 = k)) as [->|Hne]; simpl.
    + by apply list.NoDup_cons.
    + apply list.NoDup_cons. split; [|by apply IH].
      intros [?|?]%keys_dict_set; done.
Qed.

Lemma dict_update_wf d src : dict_wf d → dict_wf (dict_update d src).
Proof.
  unfold dict_update. revert d.
  induction src as [|[k p] src IH]; intros d Hd; simpl; [done|].
  by apply IH, dict_set_wf.
Qed.

Lemma keys_dict_update d src k :
  k ∈ keys (dict_update d src) ↔ k ∈ keys d ∨ k ∈ keys src.
Proof.
  unfold dict_update. revert d.
  induction src as [|[k0 p0] src IH]; intros d; simpl.
  - split; [by left | intros [?|Hk]; [done | by apply elem_of_nil in Hk]].
  - rewrite IH, keys_dict_set.
    change (keys ((k0, p0) :: src)) with (k0 :: keys src).
    rewrite elem_of_cons. tauto.
Qed.

Lemma dict_get_update d src k :
  dict_wf src →
  dict_get (dict_update d src) k
  = match dict_get src k with
    | Some p => Some p
    | None => dict_get d k
    end.
Proof.
  unfold dict_update, dict_wf. revert d.
  induction src as [|[k0 p0] src IH]; intros d Hsrc; simpl; [done|].
  apply list.NoDup_cons in Hsrc as [Hk0 Hsrc].
  rewrite IH by done. rewrite dict_get_set. simpl.
  destruct (decide (k0 = k)) as [->|Hne]; [|done].
  apply dict_get_None in Hk0. simpl in Hk0. by rewrite Hk0.
Qed.

Lemma dict_merge_wf a b : dict_wf (dict_merge a b).
Proof. apply dict_update_wf, dict_update_wf. apply NoDup_nil_2. Qed.

Lemma keys_dict_merge a b k :
  k ∈ keys (dict_merge a b) ↔ k ∈ keys a ∨ k ∈ keys b.
Proof.
  unfold dict_merge. rewrite !keys_dict_update.
  change (keys []) with (@nil string). rewrite elem_of_nil. tauto.
Qed.

Lemma dict_get_merge a b k :
  dict_wf a → dict_wf b →
  dict_get (dict_merge a b) k
  = match dict_get b k with
    | Some p => Some p
    | None => dict_get a k
    end.
Proof.
  intros Ha Hb. unfold dict_merge. rewrite !dict_get_update by done.
  simpl. by destruct (dict_get b k), (dict_get a k).
Qed.

(** Flattening a mapping yields the record of every key, in key order. *)
Lemma flatten_spec (all : dict) w :
  ∃ publications,
    flatten all w = (w, Ok publications)
    ∧ Forall2 (λ b p, dict_get all b = Some p) (keys all) publications.
Proof.
  unfold flatten.
  assert (∀ ks, (∀ k, k ∈ ks → k ∈ keys all) →
    ∃ ps, comprehension (dict_getitem all) ks w = (w, Ok ps)
          ∧ Forall2 (λ b p, dict_get all b = Some p) ks ps) as H.
  { induction ks as [|k ks IH]; intros Hks.
    - exists []. by split; [|constructor].
    - destruct IH as (ps & Hps & Hall); [intros; apply Hks; by right|].
      destruct (dict_get_keys all k) as [p Hp]; [apply Hks; by left|].
      exists (p :: ps). split; [|by constructor].
      assert (dict_getitem all k w = (w, Ok p)) as Hk.
      { unfold dict_getitem. by rewrite Hp. }
      cbn [comprehension].
      rewrite (bind_ok _ _ w w p Hk). by rewrite (bind_ok _ _ w w ps Hps). }
  by apply H.
Qed.

(** ** Merging the two result mappings *)

Lemma merge_results_unfold by_keywords by_authors :
  merge_results by_keywords by_authors
  = (for_ (keys by_keywords)
       (copy_keywords by_keywords (dict_merge by_keywords by_authors))
     ≫= λ _, mret (dict_merge by_keywords by_authors)).
Proof. reflexivity. Qed.

Lemma copy_keywords_cases by_keywords all b w w' r :
  copy_keywords by_keywords all b w = (w', r) →
  (w' = w ∧ r = Raise KeyError)
  ∨ (∃ src kw dst,
       dict_get by_keywords b = Some src
       ∧ objects w src !! "keywords" = Some kw
       ∧ dict_get all b = Some dst
       ∧ w' = (setitem dst "keywords" kw w).1 ∧ r = Ok tt).
Proof.
  unfold copy_keywords, dict_getitem, getitem, mbind, M_bind.
  destruct (dict_get by_keywords b) as [src|] eqn:Hsrc; simpl;
    [|intros [= <- <-]; by left].
  destruct (objects w src !! "keywords") as [kw|] eqn:Hkw; simpl;
    [|intros [= <- <-]; by left].
  destruct (dict_get all b) as [dst|] eqn:Hdst; simpl; intros [= <- <-].
  - right. exists src, kw, dst. by split_and!.
  - by left.
Qed.

Lemma merge_results_inv by_keywords by_authors w w' all :
  merge_results by_keywords by_authors w = (w', Ok all) →
  all = dict_merge by_keywords by_authors
  ∧ for_ (keys by_keywords)
      (copy_keywords by_keywords (dict_merge by_keywords by_authors)) w
    = (w', Ok tt).
Proof.
  rewrite merge_results_unfold.
  intros (w1 & [] & H1 & [= <- <-])%bind_ok_inv. done.
Qed.

Lemma merge_results_fields by_keywords by_authors :
  preserves (same_fields_except ["keywords"])
    (merge_results by_keywords by_authors).
Proof.
  rewrite merge_results_unfold. apply preserves_bind; [apply _ | |].
  - apply preserves_for; [apply _|]. intros b _ w w' r
      [(-> & _) | (src & kw & dst & _ & _ & _ & -> & _)]%copy_keywords_cases;
      [reflexivity|].
    eapply (setitem_same_fields dst "keywords" kw); [set_solver | done].
  - intros _. apply reads_only_preserves; [apply _ | apply reads_only_ret].
Qed.

Section merge.

Variables by_keywords by_authors : dict.

Hypothesis by_keywords_wf : dict_wf by_keywords.
Hypothesis by_authors_wf : dict_wf by_authors.

(** The two queries build their records independently: no record object
    sits under two bibcodes of [by_authors], and none is shared between
    the two mappings. *)
Hypothesis by_authors_distinct :
  ∀ b b' p, dict_get by_authors b = Some p →
            dict_get by_authors b' = Some p → b = b'.
Hypothesis results_disjoint :
  ∀ b b' p, dict_get by_keywords b = Some p →
            dict_get by_authors b' = Some p → False.

Local Abbreviation all := (dict_merge by_keywords by_authors).

Local Instance keyword_records_unchanged_po :
  PreOrder (keyword_records_unchanged by_keywords).
Proof.
  split; [by intros w b p _|].
  intros w1 w2 w3 H12 H23 b p Hp.
  by rewrite (H23 b p Hp), (H12 b p Hp).
Qed.

Lemma copy_keywords_source b :
  preserves (keyword_records_unchanged by_keywords) (copy_keywords by_keywords all b).
Proof.
  intros w w' r
    [(-> & _) | (src & kw & dst & Hsrc & Hkw & Hdst & -> & _)]
    %copy_keywords_cases; [reflexivity|].
  intros b' p Hp. rewrite dict_get_merge in Hdst by done.
  destruct (dict_get by_authors b) as [pa|] eqn:Hpa.
  - injection Hdst as <-. apply setitem_object_ne.
    intros ->. by eapply results_disjoint.
  - rewrite Hsrc in Hdst. injection Hdst as <-.
    destruct (decide (src = p)) as [->|Hne];
      [|by apply setitem_object_ne].
    simpl. rewrite fn_lookup_insert. by apply insert_id.
Qed.

Lemma copy_keywords_establishes b w w' :
  copy_keywords by_keywords all b w = (w', Ok tt) → (keywords_copied by_keywords by_authors) w' b.
Proof.
  intros Hrun pk pa Hpk Hpa.
  pose proof (copy_keywords_source b w w' _ Hrun b pk Hpk) as Hsame.
  apply copy_keywords_cases in Hrun
    as [(_ & ?) | (src & kw & dst & Hsrc & Hkw & Hdst & -> & _)]; [done|].
  rewrite dict_get_merge, Hpa in Hdst by done.
  rewrite Hpk in Hsrc. simplify_eq.
  rewrite Hsame, Hkw. split; [done|].
  rewrite setitem_field. by rewrite decide_True.
Qed.

Lemma copy_keywords_keeps b b' w w' r :
  copy_keywords by_keywords all b' w = (w', r) →
  (keywords_copied by_keywords by_authors) w b → (keywords_copied by_keywords by_authors) w' b.
Proof.
  intros Hrun Hcopied pk pa Hpk Hpa.
  destruct (Hcopied pk pa Hpk Hpa) as [Hsome Heq].
  pose proof (copy_keywords_source b' w w' _ Hrun b pk Hpk) as Hsame.
  rewrite Hsame. split; [done|].
  apply copy_keywords_cases in Hrun
    as [(-> & _) | (src & kw & dst & Hsrc & Hkw & Hdst & -> & _)]; [done|].
  rewrite setitem_field. case_decide as Hdec; [|done].
  destruct Hdec as [-> _].
  rewrite dict_get_merge in Hdst by done.
  destruct (dict_get by_authors b') as [pa'|] eqn:Hpa'.
  - injection Hdst as ->.
    assert (b' = b) as Hb by apply (by_authors_distinct b' b pa Hpa' Hpa).
    subst b'. congruence.
  - exfalso. exact (results_disjoint b' b pa Hdst Hpa).
Qed.

(** C2: for a bibcode found by both queries, the record of the merged
    mapping is the [by_authors] record; every field of it except keywords
    is as the query returned it, and its keywords field is that of the
    [by_keywords] record. *)
Theorem merge_results_both w w' merged :
  merge_results by_keywords by_authors w = (w', Ok merged) →
  ∀ b pk pa,
    dict_get by_keywords b = Some pk →
    dict_get by_authors b = Some pa →
    dict_get merged b = Some pa
    ∧ (∀ k, k ≠ "keywords" → objects w' pa !! k = objects w pa !! k)
    ∧ objects w' pa !! "keywords" = objects w pk !! "keywords"
    ∧ is_Some (objects w pk !! "keywords").
Proof.
  intros Hrun b pk pa Hpk Hpa.
  pose proof (merge_results_fields _ _ w w' _ Hrun) as Hfields.
  apply merge_results_inv in Hrun as [-> Hloop].
  assert (keyword_records_unchanged by_keywords w w') as Hsame.
  { eapply (preserves_for (keyword_records_unchanged by_keywords)); [|done].
    intros b' _. apply copy_keywords_source. }
  assert (keywords_copied by_keywords by_authors w' b) as Hcopied.
  { eapply (for_establish _ (keywords_copied by_keywords by_authors));
      [apply copy_keywords_establishes | | done |].
    - intros x y u u' r. apply copy_keywords_keeps.
    - by eapply dict_get_Some_keys. }
  destruct (Hcopied pk pa Hpk Hpa) as [Hsome Heq].
  rewrite (Hsame b pk Hpk) in Hsome, Heq.
  split_and!; [|  | done | done].
  - by rewrite dict_get_merge, Hpa.
  - intros k Hk. apply Hfields. set_solver.
Qed.

End merge.

(** C3: the keys of the merged mapping are the keys of [by_keywords]
    together with the keys of [by_authors], no key occurs twice, and
    the flattened list holds, key by key and in key order, the record the
    merged mapping has for that key. *)
Theorem merge_results_keys by_keywords by_authors w w' merged :
  merge_results by_keywords by_authors w = (w', Ok merged) →
  (∀ b, b ∈ keys merged ↔ b ∈ keys by_keywords ∨ b ∈ keys by_authors)
  ∧ NoDup (keys merged)
  ∧ ∃ publications,
      flatten merged w' = (w', Ok publications)
      ∧ length publications = length (keys merged)
      ∧ Forall2 (λ b p, dict_get merged b = Some p) (keys merged) publications.
Proof.
  intros [-> _]%merge_results_inv. split_and!.
  - apply keys_dict_merge.
  - apply dict_merge_wf.
  - destruct (flatten_spec (dict_merge by_keywords by_authors) w')
      as (publications & Hflat & Hall).
    exists publications. split_and!; [done | | done].
    symmetry. by eapply Forall2_length.
Qed.

(** ** Sorting *)

Lemma string_ltb_asym a b : String.ltb a b = true → String.ltb b a = false.
Proof.
  unfold String.ltb. rewrite (String.compare_antisym a b).
  by destruct (String.compare b a).
Qed.

Lemma list_ltb_asym a b : list_ltb a b = true → list_ltb b a = false.
Proof.
  revert b. induction a as [|x a IH]; intros [|y b]; simpl; try done.
  rewrite (String.compare_antisym y x).
  destruct (String.compare x y); simpl; auto.
Qed.

Lemma value_lt_asym v w : value_lt v w = Ok true → value_lt w v = Ok false.
Proof.
  destruct v as [|a|a|a|a], w as [|b|b|b|b]; simpl; try done;
    intros [= H]; f_equal.
  all: try (apply Z.ltb_lt in H; apply Z.ltb_ge; lia).
  - by apply string_ltb_asym.
  - by apply list_ltb_asym.
Qed.

Lemma value_lt_raise v w e : value_lt v w = Raise e → e = TypeError.
Proof.
  destruct v as [|a|a|a|a], w as [|b|b|b|b]; simpl; congruence.
Qed.

Lemma insert_by_key_perm x l r :
  insert_by_key x l = Ok r → r ≡ₚ x :: l.
Proof.
  revert r. induction l as [|y l IH]; intros r; simpl.
  - by intros [= <-].
  - destruct (value_lt y.1 x.1) as [[]|]; simpl; [|by intros [= <-]|done].
    destruct (insert_by_key x l) as [r'|]; simpl; [|done].
    intros [= <-]. rewrite (IH r' eq_refl). apply Permutation_swap.
Qed.

Lemma sort_by_key_perm l r : sort_by_key l = Ok r → r ≡ₚ l.
Proof.
  revert r. induction l as [|x l IH]; intros r; simpl.
  - by intros [= <-].
  - destruct (sort_by_key l) as [s|]; simpl; [|done].
    intros ->%insert_by_key_perm. by rewrite (IH s eq_refl).
Qed.

Lemma insert_by_key_HdRel y x l r :
  key_le y x → HdRel key_le y l →
  insert_by_key x l = Ok r → HdRel key_le y r.
Proof.
  intros Hyx Hyl. destruct l as [|z l]; simpl.
  - intros [= <-]. by constructor.
  - destruct (value_lt z.1 x.1) as [[]|]; simpl; [|by intros [= <-]; constructor|done].
    destruct (insert_by_key x l) as [r'|]; simpl; [|done].
    intros [= <-]. constructor. by inversion Hyl.
Qed.

Lemma insert_by_key_sorted x l r :
  Sorted key_le l → insert_by_key x l = Ok r → Sorted key_le r.
Proof.
  intros Hl. revert r. induction Hl as [|y l Hl IH Hy]; intros r; simpl.
  - intros [= <-]. by repeat constructor.
  - destruct (value_lt y.1 x.1) as [[]|] eqn:Hlt; simpl.
    + destruct (insert_by_key x l) as [r'|] eqn:Hins; simpl; [|done].
      intros [= <-]. constructor; [by apply IH|].
      eapply insert_by_key_HdRel; [|done..]. by apply value_lt_asym.
    + intros [= <-]. by repeat constructor.
    + done.
Qed.

Lemma sort_by_key_sorted l r : sort_by_key l = Ok r → Sorted key_le r.
Proof.
  revert r. induction l as [|x l IH]; intros r; simpl.
  - intros [= <-]. constructor.
  - destruct (sort_by_key l) as [s|]; simpl; [|done].
    apply insert_by_key_sorted. by apply IH.
Qed.

Lemma insert_by_key_raise x l e :
  insert_by_key x l = Raise e → e = TypeError.
Proof.
  induction l as [|y l IH]; simpl; [done|].
  destruct (value_lt y.1 x.1) as [[]|e'] eqn:Hlt; simpl; [|done|].
  - destruct (insert_by_key x l); simpl; [done|]. intros [= <-]. by apply IH.
  - intros [= <-]. by eapply value_lt_raise.
Qed.

Lemma sort_by_key_raise l e : sort_by_key l = Raise e → e = TypeError.
Proof.
  revert e. induction l as [|x l IH]; intros e; simpl; [done|].
  destruct (sort_by_key l) as [s|e']; simpl.
  - apply insert_by_key_raise.
  - intros [= <-]. by apply IH.
Qed.

Lemma insert_by_key_strings x l :
  string_key x → Forall string_key l → returns (insert_by_key x l).
Proof.
  intros [s Hs] Hl. induction Hl as [|y l [t Ht] Hl IH]; simpl; [by eexists|].
  rewrite Ht, Hs. simpl.
  destruct (String.ltb t s); simpl; [|by eexists].
  destruct IH as [r ->]. by eexists.
Qed.

Lemma sort_by_key_strings l :
  Forall string_key l → returns (sort_by_key l).
Proof.
  induction 1 as [|x l Hx Hl [s Hs]]; simpl; [by eexists|].
  rewrite Hs. simpl. apply insert_by_key_strings; [done|].
  apply sort_by_key_perm in Hs. by rewrite Hs.
Qed.

Lemma string_ltb_leb a b : String.ltb b a = false ↔ String.leb a b = true.
Proof.
  unfold String.ltb, String.leb. rewrite (String.compare_antisym b a).
  by destruct (String.compare a b).
Qed.

Lemma string_ltb_trans a b c :
  String.ltb b a = false → String.ltb c b = false → String.ltb c a = false.
Proof.
  rewrite !string_ltb_leb. intros Hab Hbc.
  apply Is_true_true. apply Is_true_true in Hab, Hbc.
  change (String.le a c). by etrans.
Qed.

Lemma string_compare_refl a : String.compare a a = Eq.
Proof.
  induction a as [|c a IH]; simpl; [done|].
  unfold Ascii.compare. by rewrite N.compare_refl.
Qed.

Lemma string_compare_Gt_trans a b c :
  String.compare a b = Gt → String.compare b c = Gt → String.compare a c = Gt.
Proof.
  intros Hab Hbc.
  assert (String.ltb a b = false) as H1 by (unfold String.ltb; by rewrite Hab).
  assert (String.ltb b c = false) as H2 by (unfold String.ltb; by rewrite Hbc).
  pose proof (string_ltb_trans _ _ _ H2 H1) as H3. unfold String.ltb in H3.
  destruct (String.compare a c) eqn:Hac; [|done..].
  apply String.compare_eq_iff in Hac as ->.
  rewrite (String.compare_antisym b c), Hab in Hbc. done.
Qed.

Lemma list_ltb_nil_r a : list_ltb a [] = false.
Proof. by destruct a. Qed.

Lemma list_ltb_trans a b c :
  list_ltb b a = false → list_ltb c b = false → list_ltb c a = false.
Proof.
  revert b c. induction a as [|x a IH]; intros b c.
  - intros _ _. apply list_ltb_nil_r.
  - destruct b as [|y b]; [done|]. destruct c as [|z c]; [done|]. simpl.
    destruct (String.compare y x) eqn:Hyx; [|done|];
      destruct (String.compare z y) eqn:Hzy; try done.
    + apply String.compare_eq_iff in Hyx as ->.
      apply String.compare_eq_iff in Hzy as ->.
      rewrite string_compare_refl. apply IH.
    + apply String.compare_eq_iff in Hyx as ->. by rewrite Hzy.
    + apply String.compare_eq_iff in Hzy as ->. by rewrite Hyx.
    + by rewrite (string_compare_Gt_trans z y x).
Qed.

Global Instance key_le_trans : Transitive key_le.
Proof.
  intros [u ?] [v ?] [w ?]. unfold key_le. simpl.
  destruct u as [|a|a|a|a], v as [|b|b|b|b]; simpl; try done;
    destruct w as [|c|c|c|c]; simpl; try done;
    intros [= H1] [= H2]; f_equal.
  all: try (apply Z.ltb_ge in H1, H2; apply Z.ltb_ge;
            repeat match goal with b : bool |- _ => destruct b end; lia).
  - by eapply string_ltb_trans.
  - by eapply list_ltb_trans.
Qed.

Lemma sort_by_key_strongly_sorted l r :
  sort_by_key l = Ok r → StronglySorted key_le r.
Proof.
  intros H. apply Sorted_StronglySorted; [apply _|].
  by eapply sort_by_key_sorted.
Qed.

Lemma comprehension_getitem k publications w w' r :
  comprehension (λ p, getitem p k) publications w = (w', r) →
  w' = w
  ∧ match r with
    | Ok ks => Forall2 (λ p v, objects w p !! k = Some v) publications ks
    | Raise e => e = KeyError ∧ ∃ p, p ∈ publications ∧ objects w p !! k = None
    end.
Proof.
  revert w' r. induction publications as [|p ps IH]; intros w' r; simpl.
  - intros [= <- <-]. by split; [|constructor].
  - unfold mbind, M_bind at 1, getitem at 1.
    destruct (objects w p !! k) as [v|] eqn:Hv.
    + unfold mbind, M_bind.
      destruct (comprehension _ ps w) as [w1 [ks|e]] eqn:Hps.
      * destruct (IH _ _ eq_refl) as [-> Hks].
        intros [= <- <-]. split; [done|]. by constructor.
      * destruct (IH _ _ eq_refl) as [-> [-> (q & Hq & Hnone)]].
        intros [= <- <-]. split_and!; [done..|].
        exists q. split; [by right | done].
    + intros [= <- <-]. split_and!; [done..|].
      exists p. split; [by left | done].
Qed.

Lemma bibcode_sorted w (l : list (value * loc)) :
  Forall (λ x, objects w x.2 !! "bibcode" = Some x.1) l →
  StronglySorted key_le l → StronglySorted (bibcode_le w) (l.*2).
Proof.
  intros Hl Hs. induction Hs as [|x l Hs IH Hx]; simpl; [constructor|].
  apply list.Forall_cons in Hl as [Hx0 Hl]. constructor; [by apply IH|].
  apply Forall_fmap, Forall_forall. intros y Hy.
  exists x.1, y.1. split_and!; [done | |].
  - by eapply Forall_forall in Hl.
  - by eapply Forall_forall in Hx.
Qed.

(** What sorting does, whatever the records hold. *)
Lemma sort_publications_cases publications w :
  match sort_publications publications w with
  | (w', Ok sorted) =>
      w' = w
      ∧ sorted ≡ₚ publications
      ∧ StronglySorted (bibcode_le w) sorted
  | (w', Raise e) =>
      w' = w
      ∧ (e = KeyError
           ∧ (∃ p, p ∈ publications ∧ objects w p !! "bibcode" = None)
         ∨ e = TypeError
           ∧ ¬ (∀ p, p ∈ publications →
                     ∃ s, objects w p !! "bibcode" = Some (VStr s)))
  end.
Proof.
  unfold sort_publications, mbind, M_bind at 1.
  destruct (comprehension _ publications w) as [w1 [ks|e]] eqn:Hks;
    apply comprehension_getitem in Hks as [-> Hks].
  - unfold mbind, M_bind, lift, mret, M_ret.
    assert (Forall (λ x, objects w x.2 !! "bibcode" = Some x.1)
              (zip ks publications)) as Hzip.
    { induction Hks; simpl; by constructor. }
    assert ((zip ks publications).*2 = publications) as Hsnd.
    { apply snd_zip. apply Forall2_length in Hks. lia. }
    destruct (sort_by_key (zip ks publications)) as [sorted|e] eqn:Hsort.
    + pose proof (sort_by_key_perm _ _ Hsort) as Hperm.
      split_and!; [done | by rewrite Hperm, Hsnd |].
      apply bibcode_sorted; [by rewrite Hperm|].
      by eapply sort_by_key_strongly_sorted.
    + split; [done|]. right. split; [by eapply sort_by_key_raise|].
      intros Hstr. destruct (sort_by_key_strings (zip ks publications))
        as [r Hr]; [|congruence].
      apply list.Forall_forall. intros [v p] Hvp.
      pose proof (proj1 (list.Forall_forall _ _) Hzip _ Hvp) as Hv.
      simpl in Hv. destruct (Hstr p) as [s Hs].
      { apply (list_elem_of_fmap_2 snd) in Hvp. by rewrite Hsnd in Hvp. }
      exists s. simpl. congruence.
  - split; [done|]. by left.
Qed.

Lemma sort_publications_ok_inv publications w w' sorted :
  sort_publications publications w = (w', Ok sorted) →
  w' = w ∧ sorted ≡ₚ publications ∧ StronglySorted (bibcode_le w) sorted.
Proof.
  intros H. pose proof (sort_publications_cases publications w) as Hc.
  by rewrite H in Hc.
Qed.

(** C4: when every record has a bibcode field, sorting leaves the world as
    it is and either returns a permutation of the list in which no record
    has a smaller bibcode than an earlier one, or raises [TypeError]; it
    raises only if some bibcode is not a string. *)
Theorem sort_publications_sorted publications w :
  (∀ p, p ∈ publications → is_Some (objects w p !! "bibcode")) →
  match sort_publications publications w with
  | (w', Ok sorted) =>
      w' = w
      ∧ sorted ≡ₚ publications
      ∧ Sorted (bibcode_le w) sorted
      ∧ StronglySorted (bibcode_le w) sorted
  | (w', Raise e) =>
      w' = w ∧ e = TypeError
      ∧ ¬ (∀ p, p ∈ publications →
                ∃ s, objects w p !! "bibcode" = Some (VStr s))
  end.
Proof.
  intros Hbib. pose proof (sort_publications_cases publications w) as Hc.
  destruct (sort_publications publications w) as [w' [sorted|e]].
  - destruct Hc as (-> & Hperm & Hsorted).
    split_and!; [done.. | | done]. by apply StronglySorted_Sorted.
  - destruct Hc as [-> [[_ (p & Hp & Hnone)] | [-> Hstr]]]; [|done].
    destruct (Hbib p Hp) as [v Hv]. congruence.
Qed.

(** ** Stripping and reading lines *)

Lemma all_space_nil : PyStr.all_space EmptyString.
Proof. constructor. Qed.

Lemma all_space_cons c s :
  PyStr.is_space c = true → PyStr.all_space s → PyStr.all_space (String c s).
Proof. intros Hc Hs. by constructor. Qed.

Lemma lstrip_spec s :
  ∃ pre, s = pre +:+ PyStr.lstrip s
         ∧ PyStr.all_space pre
         ∧ ∀ c, PyStr.first_char (PyStr.lstrip s) = Some c →
                PyStr.is_space c = false.
Proof.
  induction s as [|a s (pre & Hs & Hpre & Hfirst)]; simpl.
  - exists EmptyString. split_and!; [done | apply all_space_nil | done].
  - destruct (PyStr.is_space a) eqn:Ha.
    + exists (String a pre). split_and!; [|by apply all_space_cons|done].
      exact (f_equal (String a) Hs).
    + exists EmptyString. split_and!; [done | apply all_space_nil |].
      simpl. by intros c [= <-].
Qed.

Lemma rstrip_spec s :
  ∃ post, s = PyStr.rstrip s +:+ post
          ∧ PyStr.all_space post
          ∧ (∀ c, PyStr.last_char (PyStr.rstrip s) = Some c →
                  PyStr.is_space c = false)
          ∧ (PyStr.rstrip s = EmptyString
             ∨ PyStr.first_char (PyStr.rstrip s) = PyStr.first_char s).
Proof.
  induction s as [|a s (post & Hs & Hpost & Hlast & Hfirst)]; simpl.
  - exists EmptyString. split_and!; [done | apply all_space_nil | done | by left].
  - destruct (PyStr.rstrip s) as [|b r] eqn:Hr.
    + destruct (PyStr.is_space a) eqn:Ha.
      * exists (String a post).
        split_and!; [| by apply all_space_cons | done | by left].
        exact (f_equal (String a) Hs).
      * exists post.
        split_and!; [exact (f_equal (String a) Hs) | done | | by right].
        by intros c [= <-].
    + exists post. split_and!; [|done| |by right].
      * exact (f_equal (String a) Hs).
      * intros c Hc. by apply Hlast.
Qed.

(** [strip] removes a run of whitespace at either end, and nothing else;
    what is left neither starts nor ends with whitespace. *)
Lemma strip_spec s :
  ∃ pre post,
    s = pre +:+ PyStr.strip s +:+ post
    ∧ PyStr.all_space pre ∧ PyStr.all_space post
    ∧ (∀ c, PyStr.first_char (PyStr.strip s) = Some c →
            PyStr.is_space c = false)
    ∧ (∀ c, PyStr.last_char (PyStr.strip s) = Some c →
            PyStr.is_space c = false).
Proof.
  unfold PyStr.strip.
  destruct (lstrip_spec s) as (pre & Hs & Hpre & Hfirst).
  destruct (rstrip_spec (PyStr.lstrip s)) as (post & Hl & Hpost & Hlast & Hkeep).
  exists pre, post. split_and!; [|done..| |done].
  - by rewrite <- Hl.
  - intros c Hc. destruct Hkeep as [Hnil | Hsame].
    + by rewrite Hnil in Hc.
    + apply Hfirst. by rewrite <- Hsame.
Qed.


Lemma split_lines_newline_last text :
  Forall (λ line, line ≠ EmptyString ∧ newline_last line) (split_lines text).
Proof.
  induction text as [|c rest IH]; simpl; [constructor|].
  case_decide as Hc.
  - constructor; [|done]. split; [done|]. intros pre post Heq.
    destruct pre as [|x pre]; [by injection Heq as _ <-|].
    injection Heq as _ Heq. by destruct pre.
  - destruct (split_lines rest) as [|line lines];
      [|inversion IH as [|? ? [Hne Hl] Hls]; subst].
    + constructor; [|constructor]. split; [done|]. intros pre post Heq.
      destruct pre as [|x pre]; [by injection Heq as ? _|].
      injection Heq as _ Heq. by destruct pre.
    + constructor; [|done]. split; [done|]. intros pre post Heq.
      destruct pre as [|x pre]; [by injection Heq as ? _|].
      injection Heq as _ Heq. by eapply Hl.
Qed.






Lemma readlines_empty : readlines EmptyString = [].
Proof. done. Qed.

(** ** The file of previously found bibcodes *)

Lemma previously_found_bibcodes_cases w :
  previously_found_bibcodes w
  = match previous_bibcodes_file w with
    | Some text =>
        match file_read_error w with
        | Some e => (w, Raise e)
        | None => (w, Ok (PyStr.strip <$> readlines text))
        end
    | None =>
        if file_writable w then
          if file_created w then
            (World (objects w) (Some EmptyString) true true
               (file_read_error w),
             match file_read_error w with
             | Some e => Raise e
             | None => Ok []
             end)
          else (w, Raise IOError)
        else (w, Raise IOError)
    end.
Proof. by destruct w as [objs [text|] [|] [|] [e|]]. Qed.


(** ** [run_pub] and the file of previously found bibcodes *)

Lemma file_blind_ret {A} (a : A) : file_blind (mret a).
Proof. done. Qed.

Lemma file_blind_raise {A} e : file_blind (@raise A e).
Proof. done. Qed.

Lemma file_blind_lift {A} (o : outcome A) : file_blind (lift o).
Proof. done. Qed.

Lemma file_blind_bind {A B} (m : M A) (f : A → M B) :
  file_blind m → (∀ a, file_blind (f a)) → file_blind (m ≫= f).
Proof.
  intros Hm Hf w f0. unfold mbind, M_bind. rewrite Hm.
  destruct (m w) as [w1 [a|e]]; simpl; [apply Hf | done].
Qed.

Lemma file_blind_for {A} (xs : list A) (body : A → M unit) :
  (∀ x, file_blind (body x)) → file_blind (for_ xs body).
Proof.
  intros Hbody. induction xs as [|x xs IH]; simpl.
  - apply file_blind_ret.
  - by apply file_blind_bind.
Qed.

Lemma file_blind_comprehension {A B} (f : A → M B) xs :
  (∀ x, file_blind (f x)) → file_blind (comprehension f xs).
Proof.
  intros Hf. induction xs as [|x xs IH]; simpl.
  - apply file_blind_ret.
  - apply file_blind_bind; [done | intros y].
    apply file_blind_bind; [done | intros ys]. apply file_blind_ret.
Qed.

Lemma file_blind_getitem p k : file_blind (getitem p k).
Proof.
  intros w f. unfold getitem. simpl.
  by destruct (objects w p !! k).
Qed.

Lemma file_blind_setitem p k v : file_blind (setitem p k v).
Proof. done. Qed.

Lemma file_blind_haskey p k : file_blind (haskey p k).
Proof. done. Qed.

Lemma file_blind_getdefault p k d : file_blind (getdefault p k d).
Proof. done. Qed.

Lemma file_blind_dict_getitem d k : file_blind (dict_getitem d k).
Proof. unfold dict_getitem. by destruct (dict_get d k). Qed.

Create HintDb blind discriminated.

#[local] Hint Resolve file_blind_ret file_blind_raise file_blind_lift
  file_blind_getitem file_blind_setitem file_blind_haskey
  file_blind_getdefault file_blind_dict_getitem : blind.

#[local] Hint Extern 2 (file_blind (_ ≫= _)) =>
  apply file_blind_bind; [|intros ?] : blind.
#[local] Hint Extern 2 (file_blind (for_ _ _)) =>
  apply file_blind_for; intros ? : blind.
#[local] Hint Extern 2 (file_blind (comprehension _ _)) =>
  apply file_blind_comprehension; intros ? : blind.
#[local] Hint Extern 3 (file_blind (if ?b then _ else _)) =>
  destruct b : blind.

Lemma file_blind_merge_results by_keywords by_authors :
  file_blind (merge_results by_keywords by_authors).
Proof. unfold merge_results, copy_keywords. auto 10 with blind. Qed.

Lemma file_blind_flatten all : file_blind (flatten all).
Proof. unfold flatten. auto with blind. Qed.

Lemma file_blind_sort_publications publications :
  file_blind (sort_publications publications).
Proof. unfold sort_publications. auto 10 with blind. Qed.

Lemma file_blind_enrich str_of_other publications :
  file_blind (enrich str_of_other publications).
Proof.
  unfold enrich, add_ads_url, add_refereed, join_list_values, join_column.
  auto 20 with blind.
Qed.

Lemma file_blind_publications_spreadsheet publications columns :
  file_blind (publications_spreadsheet publications columns).
Proof. unfold publications_spreadsheet. auto with blind. Qed.

Lemma file_blind_run_pub str_of_other by_keywords by_authors :
  file_blind (run_pub str_of_other by_keywords by_authors).
Proof.
  unfold run_pub.
  apply file_blind_bind; [apply file_blind_merge_results | intros all].
  apply file_blind_bind; [apply file_blind_flatten | intros flat].
  apply file_blind_bind; [apply file_blind_sort_publications | intros sorted].
  apply file_blind_bind; [apply file_blind_enrich | intros _].
  apply file_blind_bind; [apply file_blind_publications_spreadsheet|].
  intros sheet. apply file_blind_ret.
Qed.

Lemma reads_only_publications_spreadsheet publications columns :
  reads_only (publications_spreadsheet publications columns).
Proof.
  apply reads_only_comprehension. intros p.
  apply reads_only_comprehension. intros c.
  apply reads_only_bind; [apply reads_only_getdefault | intros v].
  apply reads_only_bind; [apply reads_only_lift | intros _].
  apply reads_only_ret.
Qed.

Lemma run_pub_ok_inv str_of_other by_keywords by_authors w w' publications sheet :
  run_pub str_of_other by_keywords by_authors w = (w', Ok (publications, sheet)) →
  ∃ w1 flat,
    merge_results by_keywords by_authors w
      = (w1, Ok (dict_merge by_keywords by_authors))
    ∧ flatten (dict_merge by_keywords by_authors) w1 = (w1, Ok flat)
    ∧ sort_publications flat w1 = (w1, Ok publications)
    ∧ enrich str_of_other publications w1 = (w', Ok tt)
    ∧ publications_spreadsheet publications (spreadsheet_columns.*1) w'
      = (w', Ok sheet).
Proof.
  unfold run_pub.
  intros (w1 & all & Hmerge & Hrest)%bind_ok_inv.
  apply bind_ok_inv in Hrest as (w2 & flat & Hflat & Hrest).
  apply bind_ok_inv in Hrest as (w3 & sorted & Hsort & Hrest).
  apply bind_ok_inv in Hrest as (w4 & [] & Henrich & Hrest).
  apply bind_ok_inv in Hrest as (w5 & sheet' & Hsheet & [= <- <- <-]).
  pose proof (merge_results_inv _ _ _ _ _ Hmerge) as [-> _].
  destruct (flatten_spec (dict_merge by_keywords by_authors) w1)
    as (flat' & Hflat' & _).
  rewrite Hflat' in Hflat. injection Hflat as <- <-.
  pose proof (sort_publications_ok_inv _ _ _ _ Hsort) as (-> & _).
  assert (w5 = w4) as ->.
  { by eapply reads_only_publications_spreadsheet. }
  exists w1, flat'. by split_and!.
Qed.

(** C1, as amended: [run_pub] does not consult the file of previously
    found bibcodes.  Whatever the file holds, the publication list and
    the spreadsheet are the same and the file is left as it was; and the
    record of every key of the merged mapping is in the publication list. *)
Theorem run_pub_ignores_previous_bibcodes str_of_other by_keywords by_authors w :
  (∀ f,
     run_pub str_of_other by_keywords by_authors (with_file f w)
     = (with_file f (run_pub str_of_other by_keywords by_authors w).1,
        (run_pub str_of_other by_keywords by_authors w).2))
  ∧ (∀ w' publications sheet,
       run_pub str_of_other by_keywords by_authors w
         = (w', Ok (publications, sheet)) →
       ∀ b p, dict_get (dict_merge by_keywords by_authors) b = Some p →
              p ∈ publications).
Proof.
  split.
  - intros f. apply file_blind_run_pub.
  - intros w' publications sheet
      (w1 & flat & _ & Hflat & Hsort & _)%run_pub_ok_inv b p Hp.
    apply sort_publications_ok_inv in Hsort as (_ & Hperm & _).
    rewrite Hperm.
    destruct (flatten_spec (dict_merge by_keywords by_authors) w1)
      as (flat' & Hflat' & Hall).
    rewrite Hflat' in Hflat. injection Hflat as ->.
    pose proof (dict_get_Some_keys _ _ _ Hp) as Hb.
    apply list_elem_of_lookup in Hb as [i Hi].
    destruct (Forall2_lookup_l _ _ _ _ _ Hall Hi) as (q & Hq & Hbq).
    assert (q = p) as -> by congruence.
    by eapply list_elem_of_lookup_2.
Qed.

(** ** Distinct records, from the lists of record identities *)

Lemma dict_get_elem_of d k p : dict_get d k = Some p → p ∈ d.*2.
Proof.
  induction d as [|[k0 p0] d IH]; simpl; [done|].
  case_decide; [intros [= <-]; by left | intros Hget; right; by apply IH].
Qed.

Lemma dict_records_distinct d :
  NoDup (d.*2) →
  ∀ b b' p, dict_get d b = Some p → dict_get d b' = Some p → b = b'.
Proof.
  induction d as [|[k0 p0] d IH]; simpl; [done|].
  intros [Hp0 Hd]%list.NoDup_cons b b' p.
  repeat case_decide; subst; try done.
  - intros [= <-] Hin%dict_get_elem_of. done.
  - intros Hin%dict_get_elem_of [= <-]. done.
  - by apply IH.
Qed.

Lemma dict_records_disjoint d d' :
  Forall (λ p, p ∉ d'.*2) (d.*2) →
  ∀ b b' p, dict_get d b = Some p → dict_get d' b' = Some p → False.
Proof.
  intros Hall b b' p Hp%dict_get_elem_of Hp'%dict_get_elem_of.
  by eapply (proj1 (list.Forall_forall _ _) Hall).
Qed.

Lemma run_returns {A} (m : M A) w a :
  (m w).2 = Ok a → m w = ((m w).1, Ok a).
Proof. destruct (m w) as [w' r]. simpl. by intros ->. Qed.

(** ** A run on two small query results *)

Example run_pub_example :
  (run_pub example_str example_by_keywords example_by_authors
     complete_world).2
  = Ok ([1%nat; 2%nat],
        [ [VStr ""; VStr ""; VStr "Crawford, S."; VStr "";
           VStr "The Astrophysical Journal"; VStr ""; VStr ""; VStr "";
           VBool false; VStr "2017ApJ...840...10C"; VStr "";
           VStr "https://ui.adsabs.harvard.edu/#abs/2017ApJ...840...10C/abstract";
           VStr ""; VStr ""; VStr ""];
          [VStr ""; VStr ""; VStr "Buckley, D., Potter, S."; VStr "";
           VStr ""; VStr ""; VStr ""; VStr "";
           VBool true; VStr "2017MNRAS.471..600B";
           VStr "10.1093/mnras/stx1234";
           VStr "https://ui.adsabs.harvard.edu/#abs/2017MNRAS.471..600B/abstract";
           VStr ""; VStr ""; VStr "SALT, SAAO"] ]).
Proof. vm_compute. reflexivity. Qed.


Example previously_found_bibcodes_example :
  (previously_found_bibcodes complete_world).2 = Ok ["2017ApJ...840...10C"].
Proof. vm_compute. reflexivity. Qed.

(** ** The properties on the example run *)

(** C1 as stated fails: [run_pub] gets through the records of
    [complete_world], and record 1 is in the publication list although
    its bibcode is in the file of previously found bibcodes. *)
Lemma run_pub_keeps_previously_found :
  ¬ (∀ str_of_other by_keywords by_authors w w' publications sheet w2 previous,
       run_pub str_of_other by_keywords by_authors w
         = (w', Ok (publications, sheet)) →
       previously_found_bibcodes w = (w2, Ok previous) →
       ∀ p b, p ∈ publications →
              objects w' p !! "bibcode" = Some (VStr b) →
              b ∉ previous).
Proof.
  intros Hclaim.
  apply (Hclaim example_str example_by_keywords example_by_authors
           complete_world _ _ _ _ _
           (run_returns _ _ _ run_pub_example)
           (run_returns _ _ _ previously_found_bibcodes_example)
           1%nat "2017ApJ...840...10C").
  - left.
  - vm_compute. reflexivity.
  - left.
Qed.


(** C6: the code breaks the claim.  Record 1 of [example_world] has an
    empty list of keywords.  The normalisation loop skips it, because an
    empty list is false, so the record goes to the spreadsheet with a list
    in its keywords column; [worksheet.write] refuses the list and
    [run_pub] ends with [TypeError]. *)
Theorem run_pub_empty_list_raises :
  objects example_world 1%nat !! "keywords" = Some (VList [])
  ∧ (enrich example_str [1%nat; 2%nat] example_world).2 = Ok tt
  ∧ objects (enrich example_str [1%nat; 2%nat] example_world).1 1%nat
      !! "keywords" = Some (VList [])
  ∧ (publications_spreadsheet [1%nat; 2%nat] (spreadsheet_columns.*1)
       (enrich example_str [1%nat; 2%nat] example_world).1).2
    = Raise TypeError
  ∧ (run_pub example_str example_by_keywords example_by_authors
       example_world).2 = Raise TypeError.
Proof. vm_compute. done. Qed.

Lemma merge_results_both_witness :
  dict_get (dict_merge example_by_keywords example_by_authors)
    "2017MNRAS.471..600B" = Some 2%nat
  ∧ (∀ k, k ≠ "keywords" →
       objects (merge_results example_by_keywords example_by_authors
                  example_world).1 2%nat !! k
       = objects example_world 2%nat !! k)
  ∧ objects (merge_results example_by_keywords example_by_authors
               example_world).1 2%nat !! "keywords"
    = objects example_world 0%nat !! "keywords"
  ∧ is_Some (objects example_world 0%nat !! "keywords").
Proof.
  apply (merge_results_both example_by_keywords example_by_authors).
  - apply (bool_decide_unpack _). vm_compute. reflexivity.
  - apply (bool_decide_unpack _). vm_compute. reflexivity.
  - apply dict_records_distinct.
    apply (bool_decide_unpack _). vm_compute. reflexivity.
  - apply dict_records_disjoint.
    apply (bool_decide_unpack _). vm_compute. reflexivity.
  - apply run_returns. vm_compute. reflexivity.
  - reflexivity.
  - reflexivity.
Defined.

Lemma merge_results_keys_witness :
  (∀ b, b ∈ keys (dict_merge example_by_keywords example_by_authors)
        ↔ b ∈ keys example_by_keywords ∨ b ∈ keys example_by_authors)
  ∧ NoDup (keys (dict_merge example_by_keywords example_by_authors))
  ∧ ∃ publications,
      flatten (dict_merge example_by_keywords example_by_authors)
        (merge_results example_by_keywords example_by_authors example_world).1
      = ((merge_results example_by_keywords example_by_authors
            example_world).1, Ok publications)
      ∧ length publications
        = length (keys (dict_merge example_by_keywords example_by_authors))
      ∧ Forall2
          (λ b p, dict_get (dict_merge example_by_keywords example_by_authors) b
                  = Some p)
          (keys (dict_merge example_by_keywords example_by_authors))
          publications.
Proof.
  apply (merge_results_keys example_by_keywords example_by_authors
           example_world).
  apply run_returns. vm_compute. reflexivity.
Defined.

Lemma sort_publications_sorted_witness :
  match sort_publications [2%nat; 1%nat] example_world with
  | (w', Ok sorted) =>
      w' = example_world
      ∧ sorted ≡ₚ [2%nat; 1%nat]
      ∧ Sorted (bibcode_le example_world) sorted
      ∧ StronglySorted (bibcode_le example_world) sorted
  | (w', Raise e) =>
      w' = example_world ∧ e = TypeError
      ∧ ¬ (∀ p, p ∈ [2%nat; 1%nat] →
                ∃ s, objects example_world p !! "bibcode" = Some (VStr s))
  end.
Proof.
  apply (sort_publications_sorted [2%nat; 1%nat] example_world).
  intros p Hp. each_element Hp; vm_compute; by eexists.
Defined.

Lemma enrich_frame_witness :
  (∀ p k,
     k ∉ ["ads_url"; "refereed"; "author"; "title"; "doi"; "keywords"; "page"] →
     objects (enrich example_str [1%nat; 2%nat] example_world).1 p !! k
     = objects example_world p !! k)
  ∧ (∀ p c,
       c ∈ ["author"; "title"; "doi"; "keywords"; "page"] →
       absent_or_empty (objects example_world p !! c) →
       objects (enrich example_str [1%nat; 2%nat] example_world).1 p !! c
       = objects example_world p !! c)
  ∧ (∀ p, p ∉ [1%nat; 2%nat] →
       objects (enrich example_str [1%nat; 2%nat] example_world).1 p
       = objects example_world p)
  ∧ previous_bibcodes_file
      (enrich example_str [1%nat; 2%nat] example_world).1
    = previous_bibcodes_file example_world.
Proof.
  apply (enrich_frame example_str [1%nat; 2%nat] example_world _ (Ok tt)).
  apply run_returns. vm_compute. reflexivity.
Defined.

Lemma enrich_ads_url_witness :
  (∃ b, objects example_world 1%nat !! "bibcode" = Some b
        ∧ objects (enrich example_str [1%nat; 2%nat] example_world).1 1%nat
            !! "bibcode" = Some b
        ∧ objects (enrich example_str [1%nat; 2%nat] example_world).1 1%nat
            !! "ads_url" = Some (ads_url_of example_str b))
  ∧ (∀ s, objects example_world 1%nat !! "bibcode" = Some (VStr s) →
          objects (enrich example_str [1%nat; 2%nat] example_world).1 1%nat
            !! "ads_url"
          = Some (VStr ("https://ui.adsabs.harvard.edu/#abs/" +:+ s
                        +:+ "/abstract"))).
Proof.
  apply (enrich_ads_url example_str [1%nat; 2%nat] example_world).
  - apply run_returns. vm_compute. reflexivity.
  - left.
Defined.

Lemma enrich_refereed_witness :
  ∃ b, objects (enrich example_str [1%nat; 2%nat] example_world).1 2%nat
         !! "refereed" = Some (VBool b)
       ∧ (b = true ↔ "REFEREED" ∈ ["REFEREED"]).
Proof.
  apply (enrich_refereed example_str [1%nat; 2%nat] example_world).
  - apply run_returns. vm_compute. reflexivity.
  - right. left.
  - vm_compute. reflexivity.
Defined.


Lemma run_pub_ignores_previous_bibcodes_witness :
  run_pub example_str example_by_keywords example_by_authors
    (with_file (FileState None false false None) complete_world)
  = (with_file (FileState None false false None)
       (run_pub example_str example_by_keywords example_by_authors
          complete_world).1,
     (run_pub example_str example_by_keywords example_by_authors
        complete_world).2)
  ∧ 1%nat ∈ [1%nat; 2%nat].
Proof.
  destruct (run_pub_ignores_previous_bibcodes example_str example_by_keywords
              example_by_authors complete_world) as [Hblind Hall].
  split.
  - exact (Hblind (FileState None false false None)).
  - apply (Hall _ _ _ (run_returns _ _ _ run_pub_example)
             "2017ApJ...840...10C").
    vm_compute. reflexivity.
Defined.

(** C9 as stated fails: a file that exists but cannot be read makes
    [previously_found_bibcodes] raise, although the file exists after the
    check. *)
Lemma previously_found_bibcodes_unreadable :
  ¬ (∀ w w' r,
       previously_found_bibcodes w = (w', r) →
       (∃ e, r = Raise e) ↔ previous_bibcodes_file w' = None).
Proof.
  intros Hclaim.
  destruct (Hclaim
    (with_file (FileState (Some "2017ApJ...840...10C") true true
                  (Some IOError)) example_world)
    _ _ eq_refl) as [Hraises _].
  by specialize (Hraises (ex_intro _ IOError eq_refl)).
Qed.


(** Without the assumption of distinct record objects the keywords of a
    merged record need not be those of its [by_keywords] record: here the
    record of "A" ends with the keywords found for "B". *)
Example merge_results_shared_record :
  let w' := (merge_results shared_by_keywords shared_by_authors
               shared_world).1 in
  dict_get (dict_merge shared_by_keywords shared_by_authors) "A" = Some 1%nat
  ∧ objects shared_world 0%nat !! "keywords" = Some (VList ["SALT"])
  ∧ objects w' 1%nat !! "keywords" = Some (VList ["SAAO"]).
Proof. vm_compute. done. Qed.

(** * Further properties *)

(** ** The file of previously found bibcodes, read again *)

(** X1: a second call of [previously_found_bibcodes] changes nothing and
    gives what the first call gave. *)
Theorem previously_found_bibcodes_again w :
  let '(w1, r1) := previously_found_bibcodes w in
  previously_found_bibcodes w1 = (w1, r1).
Proof. by destruct w as [objs [text|] [|] [|] [e|]]. Qed.

Lemma string_app_cons_inv c s pre x post :
  String c s = pre +:+ String x post →
  (pre = EmptyString ∧ c = x ∧ s = post)
  ∨ ∃ pre', pre = String c pre' ∧ s = pre' +:+ String x post.
Proof.
  destruct pre as [|d pre]; intros [= -> ->]; [by left|].
  right. by exists pre.
Qed.

Lemma string_app_cons c (a b : string) :
  String c a +:+ b = String c (a +:+ b).
Proof. reflexivity. Qed.

Lemma string_app_nil_r (a : string) : a +:+ EmptyString = a.
Proof. induction a as [|x a IH]; [done|]. by rewrite string_app_cons, IH. Qed.

Lemma string_app_assoc (a b c : string) : (a +:+ b) +:+ c = a +:+ (b +:+ c).
Proof.
  induction a as [|x a IH]; [done|]. by rewrite !string_app_cons, IH.
Qed.

Lemma string_app_nil_inv (a b : string) :
  a +:+ b = EmptyString → a = EmptyString ∧ b = EmptyString.
Proof. by destruct a. Qed.

Lemma last_char_app c (a : string) :
  PyStr.last_char (a +:+ String c EmptyString) = Some c.
Proof.
  induction a as [|x a IH]; [done|]. rewrite string_app_cons.
  simpl. rewrite IH. by destruct a.
Qed.

Lemma strip_newline_free line :
  newline_last line → newline_free (PyStr.strip line).
Proof.
  intros Hlast Hin.
  destruct (strip_spec line) as (pre & post & Hline & _ & _ & _ & Hend).
  assert (∃ a b, PyStr.strip line = a +:+ String "010" b) as (a & b & Hab).
  { clear -Hin. induction (PyStr.strip line) as [|c s IH]; simpl in Hin.
    - by apply elem_of_nil in Hin.
    - apply elem_of_cons in Hin as [<-|Hin].
      + by exists EmptyString, s.
      + destruct (IH Hin) as (a & b & ->). by exists (String c a), b. }
  rewrite Hab in Hline.
  rewrite !string_app_assoc, string_app_cons in Hline.
  rewrite <- string_app_assoc in Hline.
  apply Hlast in Hline. apply string_app_nil_inv in Hline as [-> ->].
  specialize (Hend "010"%char). rewrite Hab, last_char_app in Hend.
  by specialize (Hend eq_refl).
Qed.

Lemma universal_newlines_free text :
  char_free "013" text → universal_newlines text = text.
Proof.
  unfold char_free. induction text as [|c rest IH]; [done|]. simpl.
  intros [Hc Hrest]%not_elem_of_cons.
  rewrite decide_False by done. by rewrite IH.
Qed.

Lemma universal_newlines_nil text :
  universal_newlines text = EmptyString → text = EmptyString.
Proof.
  destruct text as [|c rest]; [done|]. simpl.
  case_decide; [|done]. destruct rest as [|d rest]; [done|]. by case_decide.
Qed.

Lemma split_lines_nil text : split_lines text = [] → text = EmptyString.
Proof.
  destruct text as [|c rest]; simpl; [done|].
  case_decide; [done|]. by destruct (split_lines rest).
Qed.

Lemma readlines_nil text : readlines text = [] → text = EmptyString.
Proof. intros H%split_lines_nil. by apply universal_newlines_nil. Qed.

Lemma readlines_newline_last text :
  Forall newline_last (readlines text).
Proof.
  eapply list.Forall_impl; [apply split_lines_newline_last|]. by intros l [_ ?].
Qed.

(** X2: every entry that [previously_found_bibcodes] returns is free of
    newlines and neither starts nor ends with whitespace. *)
Theorem previously_found_bibcodes_clean w w' entries :
  previously_found_bibcodes w = (w', Ok entries) →
  Forall (λ entry,
    newline_free entry
    ∧ (∀ c, PyStr.first_char entry = Some c → PyStr.is_space c = false)
    ∧ (∀ c, PyStr.last_char entry = Some c → PyStr.is_space c = false))
    entries.
Proof.
  intros Hrun.
  assert (∃ text, entries = PyStr.strip <$> readlines text) as [text ->].
  { rewrite previously_found_bibcodes_cases in Hrun.
    destruct (previous_bibcodes_file w) as [text|], (file_read_error w),
      (file_writable w), (file_created w); simplify_eq;
      first [by exists text | by exists EmptyString]. }
  apply Forall_fmap, list.Forall_forall. intros line Hline. simpl.
  split.
  - apply strip_newline_free.
    by apply (proj1 (list.Forall_forall _ _) (readlines_newline_last text)).
  - destruct (strip_spec line) as (pre & post & _ & _ & _ & Hfirst & Hlast).
    by split.
Qed.

Lemma split_lines_line b rest :
  newline_free b →
  split_lines (b +:+ newline +:+ rest) = (b +:+ newline) :: split_lines rest.
Proof.
  unfold newline_free, newline. induction b as [|c b IH]; intros Hb.
  - change (split_lines (String "010" rest)
            = String "010" EmptyString :: split_lines rest).
    cbn [split_lines]. by rewrite decide_True.
  - simpl in Hb. apply not_elem_of_cons in Hb as [Hc Hb].
    rewrite (string_app_cons c b). cbn [split_lines].
    rewrite decide_False by done. by rewrite (IH Hb).
Qed.

Lemma char_free_app c s t :
  char_free c s → char_free c t → char_free c (s +:+ t).
Proof.
  unfold char_free. intros Hs Ht.
  induction s as [|d s IH]; [done|]. rewrite string_app_cons. simpl in *.
  apply not_elem_of_cons in Hs as [? ?]. apply not_elem_of_cons. auto.
Qed.

Lemma char_free_newline : char_free "013" newline.
Proof.
  unfold char_free, newline. simpl.
  apply not_elem_of_cons. split; [done | apply not_elem_of_nil].
Qed.

Lemma bibcode_log_free bibcodes :
  Forall (char_free "013") bibcodes → char_free "013" (bibcode_log bibcodes).
Proof.
  induction 1 as [|b bs Hb Hbs IH]; simpl; [apply not_elem_of_nil|].
  apply char_free_app; [done|].
  apply char_free_app; [apply char_free_newline | done].
Qed.

Lemma split_lines_bibcode_log bibcodes :
  Forall newline_free bibcodes →
  split_lines (bibcode_log bibcodes) = (λ b, b +:+ newline) <$> bibcodes.
Proof.
  induction 1 as [|b bs Hb Hbs IH]; [done|].
  cbn [bibcode_log]. rewrite split_lines_line by done. by rewrite IH.
Qed.

Lemma rstrip_app_space s c :
  PyStr.is_space c = true →
  PyStr.rstrip (s +:+ String c EmptyString) = PyStr.rstrip s.
Proof.
  intros Hc. induction s as [|x s IH].
  - simpl. by rewrite Hc.
  - rewrite string_app_cons. cbn [PyStr.rstrip]. by rewrite IH.
Qed.

Lemma lstrip_app s t :
  PyStr.lstrip (s +:+ t)
  = if decide (PyStr.lstrip s = EmptyString) then PyStr.lstrip t
    else PyStr.lstrip s +:+ t.
Proof.
  induction s as [|x s IH]; [done|].
  rewrite string_app_cons. cbn [PyStr.lstrip].
  destruct (PyStr.is_space x); [done|]. by rewrite decide_False.
Qed.

Lemma strip_app_space s c :
  PyStr.is_space c = true →
  PyStr.strip (s +:+ String c EmptyString) = PyStr.strip s.
Proof.
  intros Hc. unfold PyStr.strip. rewrite lstrip_app. case_decide as Hs.
  - rewrite Hs. simpl. by rewrite Hc.
  - by apply rstrip_app_space.
Qed.

(** X3: a log that holds one bibcode to a line reads back as the list of
    its bibcodes, when the file can be read and no bibcode contains a line
    feed or a carriage return or has whitespace around it. *)
Theorem previously_found_bibcodes_of_log objs writable created bibcodes :
  Forall (λ b, newline_free b ∧ char_free "013" b ∧ PyStr.strip b = b)
    bibcodes →
  previously_found_bibcodes
    (World objs (Some (bibcode_log bibcodes)) writable created None)
  = (World objs (Some (bibcode_log bibcodes)) writable created None,
     Ok bibcodes).
Proof.
  intros Hclean. rewrite previously_found_bibcodes_cases. simpl.
  do 2 f_equal. unfold readlines.
  rewrite universal_newlines_free.
  2:{ apply bibcode_log_free. eapply list.Forall_impl; [done|].
      by intros b (_ & ? & _). }
  rewrite split_lines_bibcode_log.
  2:{ eapply list.Forall_impl; [done|]. by intros b (? & _). }
  rewrite <- list_fmap_compose.
  induction Hclean as [|b bs (Hfree & Hcr & Hstrip) Hbs IH]; [done|].
  rewrite fmap_cons, IH. f_equal. simpl.
  unfold newline. by rewrite strip_app_space.
Qed.

(** ** More on merging *)

Lemma copy_keywords_adds by_keywords all b w w' r p :
  copy_keywords by_keywords all b w = (w', r) →
  is_Some (objects w p !! "keywords") → is_Some (objects w' p !! "keywords").
Proof.
  intros [(-> & _) | (src & kw & dst & _ & _ & _ & -> & _)]%copy_keywords_cases
    Hp; [done|].
  rewrite setitem_field. by case_decide.
Qed.

Lemma merge_results_with_keywords by_keywords by_authors w :
  (∀ b p, dict_get by_keywords b = Some p →
          is_Some (objects w p !! "keywords")) →
  ∃ w', merge_results by_keywords by_authors w
        = (w', Ok (dict_merge by_keywords by_authors)).
Proof.
  intros Hkw.
  destruct (for_returns
    (copy_keywords by_keywords (dict_merge by_keywords by_authors))
    (λ u, ∀ b p, dict_get by_keywords b = Some p →
                 is_Some (objects u p !! "keywords"))
    (keys by_keywords) w Hkw) as (w' & Hloop & _).
  { intros b u Hb Hu.
    destruct (dict_get_keys by_keywords b Hb) as [src Hsrc].
    destruct (Hu b src Hsrc) as [kw Hkws].
    destruct (dict_get_keys (dict_merge by_keywords by_authors) b)
      as [dst Hdst]; [apply keys_dict_merge; by left|].
    assert (copy_keywords by_keywords (dict_merge by_keywords by_authors) b u
            = ((setitem dst "keywords" kw u).1, Ok tt)) as Hstep.
    { unfold copy_keywords, dict_getitem, getitem, mbind, M_bind.
      rewrite Hsrc. simpl. rewrite Hkws. simpl. by rewrite Hdst. }
    eexists. split; [done|]. intros b' p Hp.
    eapply copy_keywords_adds; [done | by eapply Hu]. }
  exists w'. rewrite merge_results_unfold. by rewrite (bind_ok _ _ w w' tt Hloop).
Qed.

(** X4: when every record of [by_keywords] has a keywords field, merging
    returns, and what it returns is the mapping of [by_keywords] updated
    with [by_authors]; no assumption on sharing is needed. *)
Theorem merge_results_returns by_keywords by_authors w :
  (∀ b p, dict_get by_keywords b = Some p →
          is_Some (objects w p !! "keywords")) →
  ∃ w', merge_results by_keywords by_authors w
        = (w', Ok (dict_merge by_keywords by_authors)).
Proof. apply merge_results_with_keywords. Qed.

Section merge_more.

Variables by_keywords by_authors : dict.

Hypothesis by_keywords_wf : dict_wf by_keywords.
Hypothesis by_authors_wf : dict_wf by_authors.
Hypothesis by_authors_distinct :
  ∀ b b' p, dict_get by_authors b = Some p →
            dict_get by_authors b' = Some p → b = b'.
Hypothesis results_disjoint :
  ∀ b b' p, dict_get by_keywords b = Some p →
            dict_get by_authors b' = Some p → False.

Local Existing Instance keyword_records_unchanged_po.

Lemma merge_results_keyword_records :
  preserves (keyword_records_unchanged by_keywords)
    (merge_results by_keywords by_authors).
Proof.
  rewrite merge_results_unfold. apply preserves_bind; [apply _ | |].
  - apply preserves_for; [apply _|]. intros b _.
    by apply copy_keywords_source.
  - intros _. apply reads_only_preserves; [apply _ | apply reads_only_ret].
Qed.

(** X5: with distinct record objects, merging returns only if every
    record of [by_keywords] has a keywords field; otherwise it raises
    [KeyError]. *)
Theorem merge_results_needs_keywords w w' r :
  merge_results by_keywords by_authors w = (w', r) →
  (∃ merged, r = Ok merged)
  ↔ (∀ b p, dict_get by_keywords b = Some p →
            is_Some (objects w p !! "keywords")).
Proof.
  intros Hrun. split.
  - intros [merged ->] b pk Hpk.
    rewrite <- (merge_results_keyword_records _ _ _ Hrun b pk Hpk).
    apply merge_results_inv in Hrun as [_ Hloop].
    eapply (for_establish _
      (λ u b, ∀ pk, dict_get by_keywords b = Some pk →
                    is_Some (objects u pk !! "keywords")));
      [| |done| |done].
    + intros x u u' Hstep p Hp.
      pose proof Hstep as
        [(_ & ?) | (src & kw & dst & Hsrc & Hkw & _)]%copy_keywords_cases;
        [done|].
      eapply copy_keywords_adds; [done|]. by simplify_eq.
    + intros x y u u' r' Hstep Hx p Hp.
      eapply copy_keywords_adds; [done | by apply Hx].
    + by eapply dict_get_Some_keys.
  - intros Hkw.
    destruct (merge_results_with_keywords by_keywords by_authors w Hkw)
      as [w1 Hret].
    rewrite Hret in Hrun. injection Hrun as _ <-. by eexists.
Qed.

Lemma merge_results_author_record w w' r b pa :
  dict_get by_authors b = Some pa → dict_get by_keywords b = None →
  merge_results by_keywords by_authors w = (w', r) →
  objects w' pa = objects w pa.
Proof.
  intros Hpa Hnone. rewrite merge_results_unfold.
  apply (preserves_bind (λ u u', objects u' pa = objects u pa)
           (PreOrder0 := Build_PreOrder _ (λ _, eq_refl)
              (λ _ _ _ H1 H2, eq_trans H2 H1))).
  - apply (preserves_for _ (PreOrder0 := Build_PreOrder _ (λ _, eq_refl)
              (λ _ _ _ H1 H2, eq_trans H2 H1))).
    intros b' Hb' u u' r'
      [(-> & _) | (src & kw & dst & Hsrc & _ & Hdst & -> & _)]
      %copy_keywords_cases; [done|].
    apply setitem_object_ne. intros ->.
    rewrite dict_get_merge in Hdst by done.
    destruct (dict_get by_authors b') as [pa'|] eqn:Hpa'.
    + injection Hdst as ->.
      assert (b' = b) as -> by apply (by_authors_distinct b' b pa Hpa' Hpa).
      congruence.
    + exact (results_disjoint b' b pa Hdst Hpa).
  - intros _ u u' r' [= <- _]. done.
Qed.

(** X6: with distinct record objects, merging leaves every record of
    [by_keywords] as it was, and hands on the record of a bibcode that only
    one query found, unchanged. *)
Theorem merge_results_one_query w w' merged :
  merge_results by_keywords by_authors w = (w', Ok merged) →
  (∀ b pk, dict_get by_keywords b = Some pk → objects w' pk = objects w pk)
  ∧ (∀ b pk, dict_get by_keywords b = Some pk →
             dict_get by_authors b = None → dict_get merged b = Some pk)
  ∧ (∀ b pa, dict_get by_authors b = Some pa →
             dict_get by_keywords b = None →
             dict_get merged b = Some pa ∧ objects w' pa = objects w pa).
Proof.
  intros Hrun. split_and!.
  - intros b pk Hpk. by apply (merge_results_keyword_records _ _ _ Hrun b).
  - intros b pk Hpk Hnone. apply merge_results_inv in Hrun as [-> _].
    by rewrite dict_get_merge, Hnone.
  - intros b pa Hpa Hnone. split.
    + apply merge_results_inv in Hrun as [-> _].
      by rewrite dict_get_merge, Hpa.
    + by eapply merge_results_author_record.
Qed.

End merge_more.

(** ** More on sorting *)

(** X7: sorting never changes the store; it raises [KeyError] exactly
    when some publication has no bibcode field, and it returns when every
    bibcode is a string. *)
Theorem sort_publications_errors publications w :
  (sort_publications publications w).1 = w
  ∧ ((sort_publications publications w).2 = Raise KeyError
     ↔ ∃ p, p ∈ publications ∧ objects w p !! "bibcode" = None)
  ∧ ((∀ p, p ∈ publications →
           ∃ s, objects w p !! "bibcode" = Some (VStr s)) →
     ∃ sorted, (sort_publications publications w).2 = Ok sorted).
Proof.
  pose proof (sort_publications_cases publications w) as Hcases.
  assert (∀ w' r, sort_publications publications w = (w', r) →
            r ≠ Raise KeyError →
            ∀ p, p ∈ publications → is_Some (objects w p !! "bibcode"))
    as Hpresent.
  { intros w' r Hrun Hr p Hp.
    unfold sort_publications, mbind, M_bind at 1 in Hrun.
    destruct (comprehension _ publications w) as [w1 [ks|e]] eqn:Hks.
    - apply comprehension_getitem in Hks as [_ Hks].
      apply list_elem_of_lookup in Hp as [i Hi].
      destruct (Forall2_lookup_l _ _ _ _ _ Hks Hi) as (v & _ & Hv). by exists v.
    - apply comprehension_getitem in Hks as [_ [-> _]]. by simplify_eq. }
  destruct (sort_publications publications w) as [w' [sorted|e]] eqn:Hrun;
    simpl.
  - destruct Hcases as (-> & Hperm & _). split_and!; [done | | by eexists].
    split; [done|]. intros (p & Hp & Hnone).
    destruct (Hpresent _ _ eq_refl (ltac:(done)) p Hp) as [v Hv]. congruence.
  - destruct Hcases as [-> [[-> Hmissing] | [-> Hstr]]].
    + split_and!; [done | done |].
      intros Hall. destruct Hmissing as (p & Hp & Hnone).
      destruct (Hall p Hp) as [s Hs]. congruence.
    + split_and!; [done | | done].
      split; [done|]. intros (p & Hp & Hnone).
      destruct (Hpresent _ _ eq_refl (ltac:(done)) p Hp) as [v Hv]. congruence.
Qed.

(** ** More on the enrichment *)

Section enrichment_more.

Variable str_of_other : value → string.

Lemma join_column_truthy p c w w' v :
  join_column p c w = (w', Ok tt) →
  objects w p !! c = Some v → truthy v = true →
  ∃ s, py_join ", " v = Ok (VStr s) ∧ objects w' p !! c = Some (VStr s).
Proof.
  intros [(-> & _ & Hc) | [(v' & _ & ? & _) | (v' & s & -> & _ & Hv & _ & Hj)]]
    %join_column_cases Hl Ht; [|done|].
  - rewrite Hl in Hc. destruct Hc as [? | (v' & [= <-] & Hv)]; [done|].
    congruence.
  - rewrite Hl in Hv. injection Hv as <-. exists s. split; [done|].
    by rewrite setitem_field, decide_True.
Qed.

Lemma join_list_values_truthy publications w w' :
  NoDup publications →
  join_list_values publications w = (w', Ok tt) →
  ∀ p c v, p ∈ publications → c ∈ list_value_columns →
    objects w p !! c = Some v → truthy v = true →
    ∃ s, py_join ", " v = Ok (VStr s) ∧ objects w' p !! c = Some (VStr s).
Proof.
  intros Hnd Hrun p c v Hp Hc.
  revert c Hc v.
  apply (for_each_once (λ p, for_ list_value_columns (join_column p))
    (λ u p, objects u p)
    (λ _ r r', ∀ c, c ∈ list_value_columns →
       ∀ v, r !! c = Some v → truthy v = true →
       ∃ s, py_join ", " v = Ok (VStr s) ∧ r' !! c = Some (VStr s))
    publications w w'); [| |done..].
  - intros q q' u u' r Hq Hne.
    apply (join_row_objects str_of_other q' list_value_columns u u' r Hq).
    set_solver.
  - intros q u u' Hq.
    apply (for_each_once (join_column q) (λ u c, objects u q !! c)
      (λ _ o o', ∀ v, o = Some v → truthy v = true →
         ∃ s, py_join ", " v = Ok (VStr s) ∧ o' = Some (VStr s))
      list_value_columns u u'); [| |apply list_value_columns_NoDup|done].
    + intros c c' x x' r Hc Hne.
      apply (join_column_fields str_of_other q c' x x' r Hc). set_solver.
    + intros c x x' Hc v. by apply join_column_truthy.
Qed.

(** X8: over distinct publications the three loops return exactly when
    every publication has a bibcode, a property field that can be searched
    for 'REFEREED', and in each of author, title, doi, keywords, page
    nothing, a false value, or a value that can be joined. *)
Theorem enrich_returns_iff publications w :
  NoDup publications →
  (∃ w', enrich str_of_other publications w = (w', Ok tt))
  ↔ (∀ p, p ∈ publications → enrichable w p).
Proof.
  intros Hnd. split; [|apply enrich_returns].
  intros [w' Hrun] p Hp.
  apply enrich_ok_inv in Hrun as (w1 & w2 & H1 & H2 & H3).
  pose proof (add_ads_url_fields _ _ _ _ _ H1) as Hf1.
  pose proof (add_refereed_fields str_of_other _ _ _ _ H2) as Hf2.
  split_and!.
  - destruct (add_ads_url_spec _ _ _ _ H1 p Hp) as (b & Hb & _).
    exists b. rewrite <- Hb. symmetry. apply Hf1. set_solver.
  - destruct (add_refereed_spec str_of_other _ _ _ H2 p Hp)
      as (prop & b & Hprop & Hb & _).
    exists prop. split; [|by exists b].
    rewrite <- Hprop. symmetry. etrans; [apply Hf2 | apply Hf1]; set_solver.
  - intros c v Hc Hv Ht.
    destruct (join_list_values_truthy publications w2 w' Hnd H3 p c v Hp Hc)
      as (s & Hs & _); [|done|by exists (VStr s)].
    rewrite <- Hv. unfold list_value_columns in Hc.
    etrans; [apply Hf2 | apply Hf1]; set_solver.
Qed.

(** X9: over distinct publications, a field among author, title, doi,
    keywords, page that holds a non-empty string holds afterwards the
    characters of that string joined by ', '. *)
Theorem enrich_joins_string publications w w' :
  NoDup publications →
  enrich str_of_other publications w = (w', Ok tt) →
  ∀ p c s, p ∈ publications →
    c ∈ ["author"; "title"; "doi"; "keywords"; "page"] →
    objects w p !! c = Some (VStr s) → s ≠ EmptyString →
    objects w' p !! c = Some (VStr (PyStr.join ", " (PyStr.chars s))).
Proof.
  intros Hnd Hrun p c s Hp Hc Hs Hne.
  apply enrich_ok_inv in Hrun as (w1 & w2 & H1 & H2 & H3).
  pose proof (add_ads_url_fields _ _ _ _ _ H1) as Hf1.
  pose proof (add_refereed_fields str_of_other _ _ _ _ H2) as Hf2.
  destruct (join_list_values_truthy publications w2 w' Hnd H3 p c (VStr s) Hp Hc)
    as (j & Hj & Hfinal).
  - rewrite <- Hs. etrans; [apply Hf2 | apply Hf1]; set_solver.
  - simpl. by rewrite bool_decide_eq_false_2.
  - simpl in Hj. by injection Hj as <-.
Qed.

End enrichment_more.

(** ** The spreadsheet *)





Lemma first_refused_app cells cells' :
  first_refused (cells ++ cells')
  = match first_refused cells with
    | Some e => Some e
    | None => first_refused cells'
    end.
Proof.
  induction cells as [|v cells IH]; simpl; [done|].
  by destruct (worksheet_write v).
Qed.

Lemma write_row p columns w :
  comprehension (λ c,
    v ← getdefault p c (VStr EmptyString);
    _ ← lift (worksheet_write v);
    mret v) columns w
  = (w, match first_refused (row_of w columns p) with
        | None => Ok (row_of w columns p)
        | Some e => Raise e
        end).
Proof.
  induction columns as [|c cs IH]; [done|].
  cbn [comprehension row_of fmap list_fmap first_refused].
  unfold mbind at 1, M_bind at 1. unfold mbind at 1, M_bind at 1.
  unfold getdefault at 1. unfold mbind at 1, M_bind at 1. unfold lift at 1.
  destruct (worksheet_write (default (VStr EmptyString) (objects w p !! c)))
    as [[]|e]; [|done].
  unfold mret at 1, M_ret at 1. unfold mbind at 1, M_bind at 1.
  rewrite IH. fold (row_of w cs p).
  by destruct (first_refused (row_of w cs p)).
Qed.

Lemma publications_spreadsheet_rows publications columns w :
  publications_spreadsheet publications columns w
  = (w, match first_refused (concat (row_of w columns <$> publications)) with
        | None => Ok (row_of w columns <$> publications)
        | Some e => Raise e
        end).
Proof.
  unfold publications_spreadsheet.
  induction publications as [|p ps IH]; [done|].
  cbn [comprehension fmap list_fmap concat]. rewrite first_refused_app.
  unfold mbind at 1, M_bind at 1. rewrite write_row.
  destruct (first_refused (row_of w columns p)); [done|].
  unfold mbind at 1, M_bind at 1. rewrite IH.
  by destruct (first_refused (concat (row_of w columns <$> ps))).
Qed.




(** ** [run_pub] as a whole *)

Lemma reads_only_sort_publications publications :
  reads_only (sort_publications publications).
Proof.
  unfold sort_publications.
  apply reads_only_bind.
  - apply reads_only_comprehension. intros p. apply reads_only_getitem.
  - intros ks. apply reads_only_bind; [apply reads_only_lift|].
    intros sorted. apply reads_only_ret.
Qed.

Lemma flatten_records (all : dict) w w' flat :
  flatten all w = (w', Ok flat) →
  w' = w ∧ length flat = length (keys all) ∧ ∀ p, p ∈ flat → p ∈ all.*2.
Proof.
  intros Hflat.
  destruct (flatten_spec all w) as (flat' & Hflat' & Hall).
  rewrite Hflat' in Hflat. injection Hflat as <- <-. split_and!; [done| |].
  - symmetry. by eapply Forall2_length.
  - intros p [i Hi]%list_elem_of_lookup.
    destruct (Forall2_lookup_r _ _ _ _ _ Hall Hi) as (b & _ & Hb).
    by eapply dict_get_elem_of.
Qed.

Lemma merge_results_objects by_keywords by_authors :
  preserves (same_objects_outside ((dict_merge by_keywords by_authors).*2))
    (merge_results by_keywords by_authors).
Proof.
  rewrite merge_results_unfold. apply preserves_bind; [apply _ | |].
  - apply preserves_for; [apply _|]. intros b _ w w' r
      [(-> & _) | (src & kw & dst & _ & _ & Hdst & -> & _)]%copy_keywords_cases;
      [reflexivity|].
    eapply (setitem_same_objects dst "keywords" kw); [|done].
    by eapply dict_get_elem_of.
  - intros _. apply reads_only_preserves; [apply _ | apply reads_only_ret].
Qed.

Section run_pub_more.

Variable str_of_other : value → string.
Variables by_keywords by_authors : dict.

Lemma run_pub_preserves (R : relation world) `{!PreOrder R} :
  preserves R (merge_results by_keywords by_authors) →
  (∀ publications,
     (∀ p, p ∈ publications → p ∈ (dict_merge by_keywords by_authors).*2) →
     preserves R (enrich str_of_other publications)) →
  preserves R (run_pub str_of_other by_keywords by_authors).
Proof.
  intros Hmerge Henrich w w' r Hrun. unfold run_pub in Hrun.
  apply bind_inv in Hrun as [(w1 & all & H1 & Hrun) | (e & H1 & _)];
    [|by eapply Hmerge].
  pose proof (Hmerge _ _ _ H1) as HR1.
  apply merge_results_inv in H1 as [-> _].
  apply bind_inv in Hrun as [(w2 & flat & H2 & Hrun) | (e & H2 & _)].
  2:{ apply reads_only_comprehension in H2 as ->; [done|].
      intros b. apply reads_only_dict_getitem. }
  apply flatten_records in H2 as (-> & _ & Hflat).
  apply bind_inv in Hrun as [(w3 & sorted & H3 & Hrun) | (e & H3 & _)].
  2:{ by apply reads_only_sort_publications in H3 as ->. }
  apply sort_publications_ok_inv in H3 as (-> & Hperm & _).
  assert (preserves R (enrich str_of_other sorted)) as Hen.
  { apply Henrich. intros p Hp. apply Hflat. by rewrite <- Hperm. }
  apply bind_inv in Hrun as [(w4 & [] & H4 & Hrun) | (e & H4 & _)].
  2:{ etrans; [done | by eapply Hen]. }
  assert (w' = w4) as ->.
  { apply bind_inv in Hrun as [(w5 & sheet & H5 & [= <- _]) | (e & H5 & _)].
    - rewrite publications_spreadsheet_rows in H5. by injection H5.
    - rewrite publications_spreadsheet_rows in H5. by injection H5. }
  etrans; [done | by eapply Hen].
Qed.

(** X11: whether it returns or raises, [run_pub] changes no record
    outside the merged mapping, and in the records no field other than
    ads_url, refereed, author, title, doi, keywords and page. *)
Theorem run_pub_frame w w' r :
  run_pub str_of_other by_keywords by_authors w = (w', r) →
  (∀ p, p ∉ (dict_merge by_keywords by_authors).*2 →
        objects w' p = objects w p)
  ∧ (∀ p k,
       k ∉ ["ads_url"; "refereed"; "author"; "title"; "doi"; "keywords"; "page"] →
       objects w' p !! k = objects w p !! k).
Proof.
  intros Hrun. split.
  - eapply (run_pub_preserves (same_objects_outside _)); [| |done].
    + apply merge_results_objects.
    + intros publications Hsub u u' r' Hen.
      eapply same_objects_outside_mono; [|by eapply enrich_objects].
      intros p. apply Hsub.
  - eapply (run_pub_preserves (same_fields_except enriched_fields)); [| |done].
    + intros u u' r' Hmerge.
      eapply same_fields_except_mono; [|by eapply merge_results_fields].
      unfold enriched_fields. set_solver.
    + intros publications _. apply enrich_fields.
Qed.




End run_pub_more.

(** ** [run_pub] on records of the expected shape *)












(** ** Splitting and joining *)

Lemma join_cons sep part parts :
  PyStr.join sep (part :: parts)
  = match parts with
    | [] => part
    | _ :: _ => part +:+ sep +:+ PyStr.join sep parts
    end.
Proof. by destruct parts. Qed.

Lemma join_cons_first sep c parts :
  parts ≠ [] →
  PyStr.join sep (PyStrOps.cons_first c parts) = String c (PyStr.join sep parts).
Proof. destruct parts as [|p [|q ps]]; done. Qed.

Lemma cons_first_nonempty c parts : PyStrOps.cons_first c parts ≠ [].
Proof. by destruct parts. Qed.

Lemma split_char_nonempty sep s : PyStrOps.split_char sep s ≠ [].
Proof.
  destruct s as [|c s]; simpl; [done|].
  case_decide; [done|]. by destruct (PyStrOps.split_char sep s).
Qed.

Lemma split_char_join sep s :
  PyStr.join (String sep EmptyString) (PyStrOps.split_char sep s) = s.
Proof.
  induction s as [|c s IH]; [done|]. cbn [PyStrOps.split_char].
  case_decide as Hc.
  - subst c. rewrite join_cons.
    pose proof (split_char_nonempty sep s).
    destruct (PyStrOps.split_char sep s); [done|]. by rewrite IH.
  - rewrite join_cons_first by apply split_char_nonempty. by rewrite IH.
Qed.

Lemma split_char_free sep s :
  Forall (char_free sep) (PyStrOps.split_char sep s).
Proof.
  unfold char_free.
  induction s as [|c s IH]; cbn [PyStrOps.split_char].
  - constructor; [apply not_elem_of_nil | constructor].
  - case_decide as Hc.
    + constructor; [apply not_elem_of_nil | done].
    + destruct (PyStrOps.split_char sep s) as [|p ps]; simpl.
      * constructor; [|constructor]. simpl. set_solver.
      * inversion IH as [|? ? Hp Hps]; subst. constructor; [|done].
        simpl. set_solver.
Qed.

(** Joining the parts with another separator is replacing the separator. *)
Lemma split_char_replace sep new s :
  PyStr.join new (PyStrOps.split_char sep s) = PyStrOps.replace_char sep new s.
Proof.
  induction s as [|c s IH]; [done|].
  cbn [PyStrOps.split_char PyStrOps.replace_char]. case_decide as Hc.
  - rewrite join_cons. pose proof (split_char_nonempty sep s).
    destruct (PyStrOps.split_char sep s); [done|]. by rewrite IH.
  - rewrite join_cons_first by apply split_char_nonempty. by rewrite IH.
Qed.

(** Induction on strings, two characters at a time. *)
Lemma string_pair_ind (P : string → Prop) :
  P EmptyString →
  (∀ c, P (String c EmptyString)) →
  (∀ c d s, P s → P (String d s) → P (String c (String d s))) →
  ∀ s, P s.
Proof.
  intros Hnil Hone Hstep s.
  assert (P s ∧ ∀ c, P (String c s)) as [? _]; [|done].
  induction s as [|d s [IH1 IH2]]; [by split|].
  split; [apply IH2|]. intros c. by apply Hstep.
Qed.

Section split_pair.

Variables a b : ascii.

Local Abbreviation sep := (String a (String b EmptyString)).

Lemma split_pair_unfold c d s :
  PyStrOps.split_pair a b (String c (String d s))
  = if decide (c = a ∧ d = b) then EmptyString :: PyStrOps.split_pair a b s
    else PyStrOps.cons_first c (PyStrOps.split_pair a b (String d s)).
Proof. reflexivity. Qed.

Lemma split_pair_nonempty s : PyStrOps.split_pair a b s ≠ [].
Proof.
  destruct s as [|c [|d s]]; [done..|]. rewrite split_pair_unfold.
  case_decide; [done | apply cons_first_nonempty].
Qed.

Lemma split_pair_join s : PyStr.join sep (PyStrOps.split_pair a b s) = s.
Proof.
  induction s as [| |c d s IH1 IH2] using string_pair_ind; [done..|].
  rewrite split_pair_unfold. case_decide as Hcd.
  - destruct Hcd as [-> ->]. rewrite join_cons.
    pose proof (split_pair_nonempty s).
    destruct (PyStrOps.split_pair a b s); [done|]. by rewrite IH1.
  - rewrite join_cons_first by apply split_pair_nonempty. by rewrite IH2.
Qed.

Lemma pair_free_cons_first c parts :
  Forall (pair_free a b) parts →
  (∀ part parts', parts = part :: parts' →
     ∀ d rest, part = String d rest → ¬ (c = a ∧ d = b)) →
  Forall (pair_free a b) (PyStrOps.cons_first c parts).
Proof.
  intros Hparts Hhead. destruct parts as [|part parts']; simpl.
  - by repeat constructor.
  - inversion Hparts as [|? ? Hp Hps]; subst. constructor; [|done].
    destruct part as [|d rest]; [done|]. simpl. split; [|done].
    by eapply Hhead.
Qed.

Lemma split_pair_free s :
  Forall (pair_free a b) (PyStrOps.split_pair a b s).
Proof.
  induction s as [| |c d s IH1 IH2] using string_pair_ind.
  - by repeat constructor.
  - by repeat constructor.
  - rewrite split_pair_unfold. case_decide as Hcd.
    + by constructor.
    + apply pair_free_cons_first; [done|].
      intros part parts' Hparts e rest -> Hce.
      assert (e = d) as ->; [|done].
      destruct s as [|d' s']; [by injection Hparts|].
      rewrite split_pair_unfold in Hparts. case_decide; [done|].
      destruct (PyStrOps.split_pair a b (String d' s')); simpl in Hparts;
        by injection Hparts.
Qed.

Lemma split_pair_of_free s :
  pair_free a b s → PyStrOps.split_pair a b s = [s].
Proof.
  induction s as [| |c d s IH1 IH2] using string_pair_ind; [done..|].
  intros [Hcd Hfree]. rewrite split_pair_unfold, decide_False by done.
  by rewrite IH2.
Qed.

Lemma split_pair_app k v :
  a ≠ b → pair_free a b k →
  PyStrOps.split_pair a b (k +:+ sep +:+ v) = k :: PyStrOps.split_pair a b v.
Proof.
  intros Hab. induction k as [|c k IH]; intros Hk.
  - change (EmptyString +:+ sep +:+ v) with (String a (String b v)).
    by rewrite split_pair_unfold, decide_True.
  - destruct k as [|d k'].
    + change (String c EmptyString +:+ sep +:+ v)
        with (String c (String a (String b v))).
      rewrite split_pair_unfold, decide_False by (intros [_ ?]; done).
      by rewrite split_pair_unfold, decide_True.
    + destruct Hk as [Hcd Hk].
      change (String c (String d k') +:+ sep +:+ v)
        with (String c (String d (k' +:+ sep +:+ v))).
      rewrite split_pair_unfold, decide_False by done.
      change (String d (k' +:+ sep +:+ v)) with (String d k' +:+ sep +:+ v).
      by rewrite (IH Hk).
Qed.

(** Exactly two parts come out when the separator occurs once. *)
Lemma split_pair_two s k v :
  a ≠ b →
  PyStrOps.split_pair a b s = [k; v]
  ↔ s = k +:+ sep +:+ v ∧ pair_free a b k ∧ pair_free a b v.
Proof.
  intros Hab. split.
  - intros Hs. pose proof (split_pair_join s) as Hjoin.
    pose proof (split_pair_free s) as Hfree. rewrite Hs in Hjoin, Hfree.
    inversion Hfree as [|? ? Hk Hv']; subst.
    inversion Hv' as [|? ? Hv _]; subst. by split_and!.
  - intros (-> & Hk & Hv). rewrite split_pair_app by done.
    by rewrite split_pair_of_free.
Qed.

End split_pair.

(** ** [config.py] *)








Lemma split_pair_author_line line :
  author_line line
  ↔ ∃ key value, PyStrOps.split_pair ":" " " line = [key; value].
Proof.
  split; intros (key & value & H); exists key, value.
  - by apply split_pair_two.
  - by apply split_pair_two in H.
Qed.

Lemma parse_authors_cons line lines authors :
  parse_authors (line :: lines) authors
  = match PyStrOps.split_pair ":" " " line with
    | [key; value] => parse_authors lines (authors_set key value authors)
    | _ => None
    end.
Proof. reflexivity. Qed.

Lemma parse_authors_is_Some lines authors :
  is_Some (parse_authors lines authors) ↔ Forall author_line lines.
Proof.
  revert authors. induction lines as [|line lines IH]; intros authors.
  - split; [constructor | by eexists].
  - rewrite parse_authors_cons, list.Forall_cons, split_pair_author_line.
    destruct (PyStrOps.split_pair ":" " " line) as [|key [|value [|? ?]]].
    + split; [by intros [? ?] | by intros [(? & ? & ?) _]].
    + split; [by intros [? ?] | by intros [(? & ? & ?) _]].
    + rewrite IH. split; [intros ?; split; by eauto | by intros [_ ?]].
    + split; [by intros [? ?] | by intros [(? & ? & ?) _]].
Qed.

(** X15: importing [config] succeeds exactly when the four environment
    variables are set, both files can be read, and every line of
    [authors.txt] (lines end at a line feed, a carriage return, or the
    two together) has one ': ' between a key and a value. *)
Theorem load_config_returns_iff environ keys_txt authors_txt :
  (∃ cfg, load_config environ keys_txt authors_txt = inr cfg)
  ↔ is_Some (environ !! "SECRET-KEY") ∧ is_Some (environ !! "KEY")
    ∧ is_Some (environ !! "FROM_EMAIL")
    ∧ is_Some (environ !! "LIBRARIANS_EMAIL")
    ∧ is_Some keys_txt
    ∧ ∃ text, authors_txt = Some text ∧ Forall author_line (readlines text).
Proof.
  unfold load_config.
  destruct (environ !! "SECRET-KEY") as [secret|];
    [|split; [by intros [? ?] | by intros ([? ?] & _)]].
  destruct (environ !! "KEY") as [key|];
    [|split; [by intros [? ?] | by intros (_ & [? ?] & _)]].
  destruct keys_txt as [keys_text|];
    [|split; [by intros [? ?] | by intros (_ & _ & _ & _ & [? ?] & _)]].
  destruct authors_txt as [authors_text|];
    [|split; [by intros [? ?] | by intros (_ & _ & _ & _ & _ & ? & ? & _)]].
  pose proof (parse_authors_is_Some (readlines authors_text) []) as Hparse.
  destruct (parse_authors (readlines authors_text) []) as [authors|].
  2:{ split; [by intros [? ?]|].
      intros (_ & _ & _ & _ & _ & text & [= <-] & Hlines).
      apply Hparse in Hlines as [? ?]. done. }
  destruct (environ !! "FROM_EMAIL") as [from|];
    [|split; [by intros [? ?] | by intros (_ & _ & [? ?] & _)]].
  destruct (environ !! "LIBRARIANS_EMAIL") as [librarians|];
    [|split; [by intros [? ?] | by intros (_ & _ & _ & [? ?] & _)]].
  split; [|by eexists]. intros _. split_and!; [by eexists..|].
  exists authors_text. split; [done|]. apply Hparse. by eexists.
Qed.

(** X16: the addresses are the parts of the [LIBRARIANS_EMAIL] variable
    between its '&': there is at least one (the empty string for an empty
    variable), none contains '&', and joined by '&' they give the
    variable back. *)
Theorem load_config_librarians environ keys_txt authors_txt cfg :
  load_config environ keys_txt authors_txt = inr cfg →
  ∃ librarians,
    environ !! "LIBRARIANS_EMAIL" = Some librarians
    ∧ LIBRARIAN_EMAIL_ADDRESSES cfg ≠ []
    ∧ Forall (char_free "&") (LIBRARIAN_EMAIL_ADDRESSES cfg)
    ∧ PyStr.join "&" (LIBRARIAN_EMAIL_ADDRESSES cfg) = librarians.
Proof.
  unfold load_config. intros Hload.
  repeat match type of Hload with
         | match ?x with _ => _ end = _ => destruct x; [|done]
         end.
  injection Hload as <-. eexists. split_and!; [done | ..]; simpl.
  - apply split_char_nonempty.
  - apply split_char_free.
  - apply (split_char_join "&").
Qed.

Lemma newline_not_author_line : ¬ author_line newline.
Proof.
  intros ([|c key'] & value & Heq & _); [done|].
  unfold newline in Heq. rewrite string_app_cons in Heq.
  injection Heq as _ Heq. by destruct key'.
Qed.

(** X17: with [SECRET-KEY] and [KEY] set and both files there, a line of
    [authors.txt] that does not have one ': ' between a key and a value
    makes the import raise [ValueError]; an empty line is such a line. *)
Theorem load_config_value_error environ keys_text authors_text :
  is_Some (environ !! "SECRET-KEY") → is_Some (environ !! "KEY") →
  (∃ line, line ∈ readlines authors_text ∧ ¬ author_line line) →
  load_config environ (Some keys_text) (Some authors_text) = inl ValueError
  ∧ ¬ author_line newline.
Proof.
  intros [secret Hsecret] [key Hkey] (line & Hline & Hbad). split.
  - unfold load_config. rewrite Hsecret, Hkey.
    pose proof (parse_authors_is_Some (readlines authors_text) []) as Hparse.
    destruct (parse_authors (readlines authors_text) []) as [authors|];
      [|done].
    destruct Hbad.
    by apply (proj1 (list.Forall_forall _ _) (proj1 Hparse (mk_is_Some _ _ eq_refl))).
  - apply newline_not_author_line.
Qed.

Lemma authors_get_set key value authors key' :
  authors_get (authors_set key value authors) key'
  = if decide (key = key') then Some value else authors_get authors key'.
Proof.
  induction authors as [|[k v] authors IH]; simpl; [done|].
  destruct (decide (k = key)) as [->|Hk]; simpl.
  - by destruct (decide (key = key')).
  - rewrite IH. destruct (decide (k = key')) as [->|]; [|done].
    by rewrite decide_False.
Qed.

Lemma authors_get_app authors key name key' :
  authors_get (authors ++ [(key, name)]) key'
  = match authors_get authors key' with
    | Some n => Some n
    | None => if decide (key = key') then Some name else None
    end.
Proof.
  induction authors as [|[k v] authors IH]; simpl.
  - by destruct (decide (key = key')).
  - destruct (decide (k = key')); [done | apply IH].
Qed.

Lemma newline_free_app s t :
  newline_free s → newline_free t → newline_free (s +:+ t).
Proof.
  unfold newline_free. intros Hs Ht.
  induction s as [|c s IH]; [done|]. rewrite string_app_cons. simpl in *.
  apply not_elem_of_cons in Hs as [? ?]. apply not_elem_of_cons. auto.
Qed.

Lemma pair_free_app_char a b s c :
  c ≠ b → pair_free a b s → pair_free a b (s +:+ String c EmptyString).
Proof.
  intros Hc. induction s as [| |x y s IH1 IH2] using string_pair_ind.
  - done.
  - intros _. split; [by intros [_ ?] | done].
  - intros [Hxy Hfree]. split; [done|]. by apply IH2.
Qed.

Lemma authors_file_free entries :
  Forall (λ e, char_free "013" e.1 ∧ char_free "013" e.2) entries →
  char_free "013" (authors_file entries).
Proof.
  induction 1 as [|[key name] entries [Hk Hn] _ IH]; simpl;
    [apply not_elem_of_nil|].
  repeat apply char_free_app; try done.
  - unfold char_free. simpl. set_solver.
  - apply char_free_newline.
Qed.

(** What the loop over [authors.txt] builds from entries [key: name]. *)
Lemma parse_authors_lines entries authors :
  Forall (λ e, pair_free ":" " " e.1 ∧ newline_free e.1
               ∧ pair_free ":" " " e.2 ∧ newline_free e.2) entries →
  parse_authors (split_lines (authors_file entries)) authors
  = Some (foldl (λ acc e, authors_set e.1 (e.2 +:+ newline) acc)
            authors entries).
Proof.
  intros Hentries. revert authors.
  induction Hentries as [|[key name] entries (Hk & Hkn & Hn & Hnn) _ IH];
    intros authors; [done|].
  cbn [authors_file foldl]. rewrite split_lines_line.
  2:{ apply newline_free_app; [done|]. apply newline_free_app; [|done].
      unfold newline_free. simpl. set_solver. }
  rewrite parse_authors_cons.
  assert (PyStrOps.split_pair ":" " " ((key +:+ ": " +:+ name) +:+ newline)
          = [key; name +:+ newline]) as ->; [|apply IH].
  apply split_pair_two; [done|]. split_and!; [|done|].
  - by rewrite !string_app_assoc.
  - by apply pair_free_app_char.
Qed.

Lemma parse_authors_file entries authors :
  Forall (λ e, pair_free ":" " " e.1 ∧ newline_free e.1 ∧ char_free "013" e.1
               ∧ pair_free ":" " " e.2 ∧ newline_free e.2
               ∧ char_free "013" e.2) entries →
  parse_authors (readlines (authors_file entries)) authors
  = Some (foldl (λ acc e, authors_set e.1 (e.2 +:+ newline) acc)
            authors entries).
Proof.
  intros Hentries. unfold readlines. rewrite universal_newlines_free.
  - apply parse_authors_lines. eapply list.Forall_impl; [done|].
    by intros e (? & ? & _ & ? & ? & _).
  - apply authors_file_free. eapply list.Forall_impl; [done|].
    by intros e (_ & _ & ? & _ & _ & ?).
Qed.

(** X18: when [authors.txt] holds one entry [key: name] to a line (keys
    and names without ': ', line feed or carriage return), the value
    stored for a key is the name of the last line with that key together
    with the line feed that ends the line. *)
Theorem load_config_authors environ keys_txt entries cfg :
  Forall (λ e, pair_free ":" " " e.1 ∧ newline_free e.1 ∧ char_free "013" e.1
               ∧ pair_free ":" " " e.2 ∧ newline_free e.2
               ∧ char_free "013" e.2) entries →
  load_config environ keys_txt (Some (authors_file entries)) = inr cfg →
  ∀ key,
    authors_get (AUTHORS cfg) key
    = (λ name, name +:+ newline) <$> authors_get (reverse entries) key.
Proof.
  intros Hentries Hload key.
  assert (AUTHORS cfg
          = foldl (λ acc e, authors_set e.1 (e.2 +:+ newline) acc) [] entries)
    as ->.
  { unfold load_config in Hload.
    rewrite (parse_authors_file entries [] Hentries) in Hload.
    repeat match type of Hload with
           | match ?x with _ => _ end = _ => destruct x; [|done]
           end.
    by injection Hload as <-. }
  assert (∀ acc,
    authors_get
      (foldl (λ acc e, authors_set e.1 (e.2 +:+ newline) acc) acc entries) key
    = match authors_get (reverse entries) key with
      | Some name => Some (name +:+ newline)
      | None => authors_get acc key
      end) as Hfold.
  { clear. induction entries as [|[k n] entries IH]; intros acc; [done|].
    cbn [foldl]. rewrite IH, reverse_cons, authors_get_app, authors_get_set.
    simpl. by destruct (authors_get (reverse entries) key), (decide (k = key)). }
  rewrite Hfold. by destruct (authors_get (reverse entries) key).
Qed.

(** ** [send_mails] *)

Lemma column_title_elem columns key title :
  NoDup (columns.*1) → (key, title) ∈ columns →
  column_title columns key = Ok title.
Proof.
  induction columns as [|[k t] columns IH]; simpl.
  - intros _ Hin. by apply elem_of_nil in Hin.
  - intros [Hk Hnd]%list.NoDup_cons [[= -> ->] | Hin]%elem_of_cons.
    + by rewrite decide_True.
    + rewrite decide_False; [by apply IH|]. intros ->.
      apply Hk. by apply (list_elem_of_fmap_2 fst) in Hin.
Qed.

Lemma chr_letter (i : nat) :
  (65 + i < 256)%nat → PyStrOps.chr (65 + i) = Some (column_letter i).
Proof. intros Hi. unfold PyStrOps.chr. by rewrite decide_True. Qed.

Lemma explanation_lines_explained columns i entries :
  NoDup (columns.*1) → (∀ e, e ∈ entries → e ∈ columns) →
  (i + length entries ≤ 191)%nat →
  explanation_lines columns i (entries.*1) = Some (Ok (explained i entries)).
Proof.
  intros Hnd. revert i.
  induction entries as [|[key title] entries IH]; intros i Hsub Hlen; [done|].
  simpl in Hlen.
  cbn [fmap list_fmap explanation_lines explained]. unfold explanation_line.
  rewrite chr_letter by lia. simpl.
  rewrite (column_title_elem columns key title Hnd) by (apply Hsub; left).
  simpl. rewrite IH; [done | | lia].
  intros e He. apply Hsub. by right.
Qed.

Lemma explained_lookup i columns j key title :
  columns !! j = Some (key, title) →
  explained i columns !! j
  = Some (column_letter (i + j) +:+ " - " +:+ title +:+ "<br>").
Proof.
  revert i j. induction columns as [|[k t] columns IH]; intros i j; [done|].
  destruct j as [|j]; simpl.
  - intros [= -> ->]. by rewrite Nat.add_0_r.
  - intros Hj. rewrite (IH (S i) j Hj).
    by replace (i + S j)%nat with (S i + j)%nat by lia.
Qed.

Lemma explained_length i columns :
  length (explained i columns) = length columns.
Proof.
  revert i. induction columns as [|[k t] columns IH]; intros i; [done|].
  simpl. by rewrite IH.
Qed.

(** X19: for an ordered dictionary of at most 191 columns (distinct keys)
    the column explanation is built without an exception; it has one line
    per column, in column order, and line [j] reads: the character with
    code ord('A') + j (the letter of spreadsheet column [j] for the first
    26), ' - ', the title of the column, '<br>'. *)
Theorem column_explanation_lines columns :
  NoDup (columns.*1) → (length columns ≤ 191)%nat →
  ∃ lines,
    column_explanation columns = Some (Ok (PyStr.join newline lines))
    ∧ length lines = length columns
    ∧ ∀ j key title, columns !! j = Some (key, title) →
        ∃ letter,
          nat_of_ascii letter = (65 + j)%nat
          ∧ lines !! j
            = Some (String letter (" - " +:+ title +:+ "<br>")).
Proof.
  intros Hnd Hlen. exists (explained 0 columns). split_and!.
  - unfold column_explanation.
    by rewrite (explanation_lines_explained columns 0 columns Hnd).
  - apply explained_length.
  - intros j key title Hj. exists (ascii_of_nat (65 + j)). split.
    + apply nat_ascii_embedding.
      apply lookup_lt_Some in Hj. lia.
    + by rewrite (explained_lookup 0 columns j key title).
Qed.

Lemma sub_tags_text s t :
  char_free "<" s →
  PyStrOps.sub_tags None (s +:+ t) = s +:+ PyStrOps.sub_tags None t.
Proof.
  unfold char_free. induction s as [|c s IH]; [done|]. simpl.
  intros [Hc Hs]%not_elem_of_cons. rewrite !string_app_cons. simpl.
  rewrite decide_False by done. by rewrite IH.
Qed.

Lemma sub_tags_inside inside x t :
  char_free ">" x → inside +:+ x ≠ EmptyString →
  PyStrOps.sub_tags (Some inside) (x +:+ String ">" t)
  = PyStrOps.sub_tags None t.
Proof.
  unfold char_free. revert inside.
  induction x as [|c x IH]; intros inside; simpl.
  - intros _ Hne. rewrite string_app_nil_r in Hne.
    by rewrite decide_False.
  - intros [Hc Hx]%not_elem_of_cons Hne.
    rewrite decide_False by done. apply IH; [done|].
    rewrite string_app_assoc. by rewrite string_app_cons.
Qed.

Lemma sub_tags_tag name t :
  char_free ">" name → name ≠ EmptyString →
  PyStrOps.sub_tags None (String "<" (name +:+ String ">" t))
  = PyStrOps.sub_tags None t.
Proof.
  intros Hfree Hne. simpl. by apply sub_tags_inside.
Qed.

Lemma column_letter_free (i : nat) :
  (i < 26)%nat → char_free "<" (column_letter i).
Proof.
  intros Hi. unfold char_free, column_letter. simpl.
  apply not_elem_of_cons. split; [|apply not_elem_of_nil].
  intros Heq. apply (f_equal nat_of_ascii) in Heq.
  rewrite nat_ascii_embedding in Heq by lia. vm_compute nat_of_ascii in Heq. lia.
Qed.

Ltac literal_free :=
  unfold char_free; simpl;
  repeat (apply not_elem_of_cons; split; [done|]); apply not_elem_of_nil.

Lemma sub_tags_explained i columns t :
  (i + length columns ≤ 26)%nat →
  Forall (λ column, char_free "<" column.2) columns →
  PyStrOps.sub_tags None (PyStr.join newline (explained i columns) +:+ t)
  = PyStr.join newline (explained_plain i columns)
    +:+ PyStrOps.sub_tags None t.
Proof.
  revert i. induction columns as [|[key title] columns IH]; intros i; [done|].
  intros Hlen [Htitle Hfree]%list.Forall_cons. simpl in Hlen, Htitle.
  cbn [explained explained_plain]. rewrite !join_cons.
  assert (Hline : ∀ rest,
    PyStrOps.sub_tags None
      ((column_letter i +:+ " - " +:+ title +:+ "<br>") +:+ rest)
    = (column_letter i +:+ " - " +:+ title)
      +:+ PyStrOps.sub_tags None rest).
  { intros rest.
    replace ((column_letter i +:+ " - " +:+ title +:+ "<br>") +:+ rest)
      with ((column_letter i +:+ " - " +:+ title)
            +:+ String "<" ("br" +:+ String ">" rest)).
    2:{ rewrite !string_app_assoc. reflexivity. }
    rewrite sub_tags_text.
    - rewrite sub_tags_tag; [done| literal_free | done].
    - apply char_free_app; [apply column_letter_free; lia|].
      apply char_free_app; [literal_free | done]. }
  destruct columns as [|column columns].
  - cbn [explained explained_plain]. apply Hline.
  - remember (column :: columns) as rest eqn:Hrest.
    assert (Hne : ∀ j, explained j rest ≠ [] ∧ explained_plain j rest ≠ []).
    { intros j. subst rest. by destruct column. }
    destruct (Hne (S i)) as [He Hp].
    destruct (explained (S i) rest) as [|line lines] eqn:Hlines; [done|].
    destruct (explained_plain (S i) rest) as [|pline plines] eqn:Hplines;
      [done|].
    rewrite <- Hlines, <- Hplines.
    rewrite (string_app_assoc
               (column_letter i +:+ " - " +:+ title +:+ "<br>")).
    rewrite Hline. rewrite (string_app_assoc newline).
    rewrite (sub_tags_text newline) by literal_free.
    rewrite IH by (simpl in Hlen; (lia || done)).
    by rewrite !string_app_assoc.
Qed.

Lemma strip_tags_mail_html explanation plain :
  (∀ t, PyStrOps.sub_tags None (explanation +:+ t)
        = plain +:+ PyStrOps.sub_tags None t) →
  PyStrOps.strip_tags (mail_html explanation) = mail_plain plain.
Proof.
  intros Hexplanation. unfold PyStrOps.strip_tags, mail_html, mail_plain.
  change ("<p>Dear Librarian,</p>" +:+ newline +:+ newline
    +:+ "<p>Please find attached the results for the publications query.</p>"
    +:+ newline +:+ newline
    +:+ "<p>" +:+ explanation +:+ "</p>" +:+ newline +:+ newline
    +:+ "<p>Kind regards,</p>" +:+ newline +:+ newline
    +:+ "<p>Your Friendly Publications Query Script</p>")
  with (String "<" ("p" +:+ String ">"
    ("Dear Librarian," +:+ String "<" ("/p" +:+ String ">"
    ((newline +:+ newline) +:+ String "<" ("p" +:+ String ">"
    ("Please find attached the results for the publications query." +:+ String "<" ("/p" +:+ String ">"
    ((newline +:+ newline) +:+ String "<" ("p" +:+ String ">"
    (explanation +:+ String "<" ("/p" +:+ String ">"
    ((newline +:+ newline) +:+ String "<" ("p" +:+ String ">"
    ("Kind regards," +:+ String "<" ("/p" +:+ String ">"
    ((newline +:+ newline) +:+ String "<" ("p" +:+ String ">"
    ("Your Friendly Publications Query Script" +:+ String "<" ("/p" +:+ String ">"
    (EmptyString))))))))))))))))))))).
  repeat first
    [ rewrite sub_tags_tag by (done || literal_free)
    | rewrite Hexplanation
    | rewrite sub_tags_text by literal_free ].
  simpl PyStrOps.sub_tags. rewrite string_app_nil_r.
  by rewrite !string_app_assoc.
Qed.

(** X20: for up to 26 columns with distinct keys and titles without a
    '<', [send_mails] builds its message without an exception, and the
    plain-text body is the HTML body without its markup: the same five
    paragraphs, and the column explanation with one line 'letter - title'
    per column, the '<p>', '</p>' and '<br>' gone and nothing else. *)
Theorem send_mails_text cfg spreadsheets columns :
  NoDup (columns.*1) → (length columns ≤ 26)%nat →
  Forall (λ column, char_free "<" column.2) columns →
  ∃ m,
    send_mails cfg spreadsheets columns = Some (Ok m)
    ∧ mail_body_html m = mail_html (PyStr.join newline (explained 0 columns))
    ∧ mail_text m
      = mail_plain (PyStr.join newline (explained_plain 0 columns)).
Proof.
  intros Hnd Hlen Hfree. unfold send_mails, column_explanation.
  rewrite (explanation_lines_explained columns 0 columns Hnd);
    [|done | simpl; lia].
  eexists. split_and!; [done.. |]. simpl.
  apply strip_tags_mail_html. intros t. by apply sub_tags_explained.
Qed.

(** X21: for at most 191 columns with distinct keys, the mail of a
    loaded configuration is built without an exception; it goes from the
    address in [FROM_EMAIL] to the addresses between the '&' of
    [LIBRARIANS_EMAIL]: its To header is that variable with every '&'
    replaced by ', ', the envelope has the addresses one by one, and the
    attachments are the spreadsheets given. *)
Theorem send_mails_recipients environ keys_txt authors_txt cfg
    spreadsheets columns :
  load_config environ keys_txt authors_txt = inr cfg →
  NoDup (columns.*1) → (length columns ≤ 191)%nat →
  ∃ m sender librarians,
    send_mails cfg spreadsheets columns = Some (Ok m)
    ∧ environ !! "FROM_EMAIL" = Some sender
    ∧ environ !! "LIBRARIANS_EMAIL" = Some librarians
    ∧ mail_from m = sender ∧ envelope_from m = sender
    ∧ mail_to m = PyStrOps.replace_char "&" ", " librarians
    ∧ envelope_to m = PyStrOps.split_char "&" librarians
    ∧ mail_attachments m = spreadsheets.
Proof.
  unfold load_config. intros Hload Hnd Hlen.
  repeat match type of Hload with
         | match ?x with _ => _ end = _ => destruct x; [|done]
         end.
  injection Hload as <-. unfold send_mails, column_explanation.
  rewrite (explanation_lines_explained columns 0 columns Hnd) by done.
  eexists _, _, _. split_and!; try done. simpl.
  apply split_char_replace.
Qed.

(** ** Runs of the further properties on the examples *)

Ltac by_computation := apply (bool_decide_unpack _); vm_compute; reflexivity.

Example load_config_example :
  load_config example_environ (Some example_keys_txt)
    (Some (authors_file example_authors))
  = inr example_config.
Proof. vm_compute. reflexivity. Qed.


Lemma previously_found_bibcodes_clean_witness :
  Forall (λ entry,
    newline_free entry
    ∧ (∀ c, PyStr.first_char entry = Some c → PyStr.is_space c = false)
    ∧ (∀ c, PyStr.last_char entry = Some c → PyStr.is_space c = false))
    ["2017ApJ...840...10C"].
Proof.
  apply (previously_found_bibcodes_clean example_world
           (previously_found_bibcodes example_world).1).
  apply run_returns. vm_compute. reflexivity.
Defined.

Lemma previously_found_bibcodes_of_log_witness :
  previously_found_bibcodes
    (World (objects example_world)
       (Some (bibcode_log ["2017ApJ...840...10C"; "2017MNRAS.471..600B"]))
       true true None)
  = (World (objects example_world)
       (Some (bibcode_log ["2017ApJ...840...10C"; "2017MNRAS.471..600B"]))
       true true None,
     Ok ["2017ApJ...840...10C"; "2017MNRAS.471..600B"]).
Proof.
  apply (previously_found_bibcodes_of_log (objects example_world) true true
           ["2017ApJ...840...10C"; "2017MNRAS.471..600B"]).
  repeat constructor; (by_computation || (vm_compute; reflexivity)).
Defined.

Lemma merge_results_returns_witness :
  ∃ w', merge_results example_by_keywords example_by_authors example_world
        = (w', Ok (dict_merge example_by_keywords example_by_authors)).
Proof.
  apply (merge_results_returns example_by_keywords example_by_authors
           example_world).
  intros b p Hp%dict_get_elem_of. each_element Hp. vm_compute. by eexists.
Defined.

Lemma merge_results_needs_keywords_witness :
  (∃ merged,
     (merge_results example_by_keywords example_by_authors example_world).2
     = Ok merged)
  ↔ (∀ b p, dict_get example_by_keywords b = Some p →
            is_Some (objects example_world p !! "keywords")).
Proof.
  apply (merge_results_needs_keywords example_by_keywords example_by_authors)
    with (w' := (merge_results example_by_keywords example_by_authors
                   example_world).1).
  - by_computation.
  - by_computation.
  - apply dict_records_disjoint. by_computation.
  - apply surjective_pairing.
Defined.

Lemma merge_results_one_query_witness :
  (∀ b pk, dict_get example_by_keywords b = Some pk →
     objects (merge_results example_by_keywords example_by_authors
                example_world).1 pk
     = objects example_world pk)
  ∧ (∀ b pk, dict_get example_by_keywords b = Some pk →
       dict_get example_by_authors b = None →
       dict_get (dict_merge example_by_keywords example_by_authors) b
       = Some pk)
  ∧ (∀ b pa, dict_get example_by_authors b = Some pa →
       dict_get example_by_keywords b = None →
       dict_get (dict_merge example_by_keywords example_by_authors) b
       = Some pa
       ∧ objects (merge_results example_by_keywords example_by_authors
                    example_world).1 pa
         = objects example_world pa).
Proof.
  apply (merge_results_one_query example_by_keywords example_by_authors).
  - by_computation.
  - by_computation.
  - apply dict_records_distinct. by_computation.
  - apply dict_records_disjoint. by_computation.
  - apply run_returns. vm_compute. reflexivity.
Defined.

Lemma enrich_returns_iff_witness :
  (∃ w', enrich example_str [1%nat; 2%nat] example_world = (w', Ok tt))
  ↔ (∀ p, p ∈ [1%nat; 2%nat] → enrichable example_world p).
Proof.
  apply (enrich_returns_iff example_str [1%nat; 2%nat] example_world).
  by_computation.
Defined.

Lemma enrich_joins_string_witness :
  objects (enrich example_str [0%nat] string_title_world).1 0%nat !! "title"
  = Some (VStr "S, A, L, T").
Proof.
  apply (enrich_joins_string example_str [0%nat] string_title_world
           (enrich example_str [0%nat] string_title_world).1)
    with (s := "SALT").
  - by_computation.
  - apply run_returns. vm_compute. reflexivity.
  - left.
  - right. left.
  - vm_compute. reflexivity.
  - done.
Defined.

Lemma run_pub_frame_witness :
  (∀ p, p ∉ (dict_merge example_by_keywords example_by_authors).*2 →
        objects (run_pub example_str example_by_keywords example_by_authors
                   complete_world).1 p
        = objects complete_world p)
  ∧ (∀ p k,
       k ∉ ["ads_url"; "refereed"; "author"; "title"; "doi"; "keywords"; "page"] →
       objects (run_pub example_str example_by_keywords example_by_authors
                  complete_world).1 p !! k
       = objects complete_world p !! k).
Proof.
  apply (run_pub_frame example_str example_by_keywords example_by_authors
           complete_world _ _ (run_returns _ _ _ run_pub_example)).
Defined.




Lemma load_config_librarians_witness :
  ∃ librarians,
    example_environ !! "LIBRARIANS_EMAIL" = Some librarians
    ∧ LIBRARIAN_EMAIL_ADDRESSES example_config ≠ []
    ∧ Forall (char_free "&") (LIBRARIAN_EMAIL_ADDRESSES example_config)
    ∧ PyStr.join "&" (LIBRARIAN_EMAIL_ADDRESSES example_config) = librarians.
Proof.
  apply (load_config_librarians example_environ (Some example_keys_txt)
           (Some (authors_file example_authors)) example_config).
  vm_compute. reflexivity.
Defined.

Lemma load_config_value_error_witness :
  load_config example_environ (Some example_keys_txt)
    (Some example_bad_authors_txt) = inl ValueError
  ∧ ¬ author_line newline.
Proof.
  apply (load_config_value_error example_environ example_keys_txt
           example_bad_authors_txt).
  - vm_compute. by eexists.
  - vm_compute. by eexists.
  - exists newline. split; [|apply newline_not_author_line].
    vm_compute. right. left.
Defined.

Lemma load_config_authors_witness :
  authors_get (AUTHORS example_config) "Buckley, D."
  = Some ("David A. H. Buckley" +:+ newline).
Proof.
  apply (load_config_authors example_environ (Some example_keys_txt)
           example_authors example_config).
  - repeat constructor; simpl; try by_computation; vm_compute; tauto.
  - vm_compute. reflexivity.
Defined.

Lemma column_explanation_lines_witness :
  ∃ lines,
    column_explanation spreadsheet_columns
    = Some (Ok (PyStr.join newline lines))
    ∧ length lines = length spreadsheet_columns
    ∧ ∀ j key title, spreadsheet_columns !! j = Some (key, title) →
        ∃ letter,
          nat_of_ascii letter = (65 + j)%nat
          ∧ lines !! j
            = Some (String letter (" - " +:+ title +:+ "<br>")).
Proof.
  apply (column_explanation_lines spreadsheet_columns).
  - by_computation.
  - vm_compute. lia.
Defined.

Lemma send_mails_text_witness :
  ∃ m,
    send_mails example_config [] spreadsheet_columns = Some (Ok m)
    ∧ mail_body_html m
      = mail_html (PyStr.join newline (explained 0 spreadsheet_columns))
    ∧ mail_text m
      = mail_plain (PyStr.join newline (explained_plain 0 spreadsheet_columns)).
Proof.
  apply (send_mails_text example_config [] spreadsheet_columns).
  - by_computation.
  - vm_compute. lia.
  - repeat constructor; literal_free.
Defined.

Lemma send_mails_recipients_witness :
  ∃ m sender librarians,
    send_mails example_config [] spreadsheet_columns = Some (Ok m)
    ∧ example_environ !! "FROM_EMAIL" = Some sender
    ∧ example_environ !! "LIBRARIANS_EMAIL" = Some librarians
    ∧ mail_from m = sender ∧ envelope_from m = sender
    ∧ mail_to m = PyStrOps.replace_char "&" ", " librarians
    ∧ envelope_to m = PyStrOps.split_char "&" librarians
    ∧ mail_attachments m = [].
Proof.
  apply (send_mails_recipients example_environ (Some example_keys_txt)
           (Some (authors_file example_authors)) example_config []
           spreadsheet_columns).
  - vm_compute. reflexivity.
  - by_computation.
  - vm_compute. lia.
Defined.
